(** * SublimeLinter3, lint/persist.py: the lint scheduling daemon

    A shallow embedding of [class Daemon] (the queue protocol, [start],
    [reenter], [loop], [hit], [delay], [printf]) and of the module-level
    singleton [queue], followed by the properties of the debounce policy.

    Conventions of the embedding.
    - Time is the reading of [time.monotonic()], in seconds.  Python floats
      are read as exact rationals ([Q]); [MIN_DELAY = 0.1] is [1/10].  The
      test of the sweep, [now > timestamp + MIN_DELAY], is used in the
      theorems as a bound only: what is dispatched is more than
      [MIN_DELAY] old.
    - Time passes only while the consumer thread is blocked ([q.get] and
      [time.sleep]); the statements between two blocking calls, a call of
      the dispatch callback among them, are instantaneous.  The theorems
      on what a sweep dispatches (C2, C4, X5) bound the clock readings of
      a dispatch from below and from above instead of naming them, so that
      they do not rest on this.
    - [while True] is unrolled: [iterations] runs the loop body once per
      element of a list that says how long each [q.get] blocked.
    - [print] succeeds in [loop_try], [report] and [iterations]; the same
      definitions with a [print] that can raise are [loop_try_io],
      [report_io] and [iterations_io].
    - A Python dict is a [gmap]; the iteration order of a dict is the order
      of [map_to_list], which no statement below depends on. *)

From Stdlib Require Import QArith Lqa String.
From stdpp Require Import gmap list strings.

Local Open Scope Q_scope.

(** ** Values travelling through the queue, exceptions, output *)

(** What can be found in [Daemon.q].  [hit] puts pairs, [delay] puts
    numbers, [start] puts the string ['reload']; the other constructors are
    the foreign values the loop defends itself against.  A 2-tuple whose
    second component is not a number is not among them: the loop takes it
    for a request, and the sweep that comes to it raises [TypeError]. *)
Inductive item : Type :=
| Pair (view_id : Z) (timestamp : Q)   (* (view.id(), timestamp) *)
| Tuple01 (one : bool)                 (* () or a 1-tuple *)
| TupleLong (extra : nat)              (* a tuple of 3 + extra elements *)
| Number (x : Q)                       (* an int, a bool or a float *)
| Str (s : string)
| Object (repr : string).              (* anything else; str(item) = repr *)

Inductive exn : Type :=
| ValueError (msg : string)
| TypeError (msg : string)
| KeyError (key : Z)
| CallbackError (what : string).       (* whatever the dispatch callback raised *)

(** The dispatch callback is code of the linter engine: all the daemon sees
    of a call is whether it returns or raises. *)
Inductive outcome : Type :=
| Returns
| Raises (e : exn).

Definition callback_fn : Type := Z -> Q -> outcome.

(** One chunk written to standard output by [print]. *)
Inductive chunk : Type :=
| Text (s : string)
| Shown (it : item)                    (* str(item) *)
| FormatExc (e : exn).                 (* traceback.format_exc() *)

(** One invocation of the dispatch callback: its two arguments, and the
    clock reading at the moment of the call (kept by the observer, not by
    the program). *)
Record call : Type := Call {
  call_view : Z;
  call_timestamp : Q;
  call_at : Q;
}.

(** ** Objects *)

(** The [__dict__] of a [Daemon] object, restricted to the attributes the
    scheduler assigns through [self].  [None] means the attribute is not in
    the instance dictionary, so that a read falls back to the class. *)
Record instance : Type := Instance {
  running_attr : option bool;
  callback_attr : option (option callback_fn);
}.

(** [Daemon()]: [__init__] only creates [settings] and [sub_settings]. *)
Definition new_instance : instance :=
  {| running_attr := None; callback_attr := None |}.

(** The process: the clock, the two mutable objects bound in the class body
    ([q = Queue()], [last_runs = {}]; the class attributes are never
    rebound, so every object reaches the same queue and the same dict), the
    Daemon objects, the threads started so far (each named by the object
    whose [loop] it runs), and what an observer has seen. *)
Record world : Type := World {
  clock : Q;
  q : list item;
  last_runs : gmap Z Q;
  objects : gmap nat instance;
  threads : list nat;
  calls : list call;
  stdout : list (list chunk);
}.

Definition set_clock (t : Q) (w : world) : world :=
  {| clock := t; q := q w; last_runs := last_runs w; objects := objects w;
     threads := threads w; calls := calls w; stdout := stdout w |}.

Definition set_q (l : list item) (w : world) : world :=
  {| clock := clock w; q := l; last_runs := last_runs w; objects := objects w;
     threads := threads w; calls := calls w; stdout := stdout w |}.

Definition set_last_runs (m : gmap Z Q) (w : world) : world :=
  {| clock := clock w; q := q w; last_runs := m; objects := objects w;
     threads := threads w; calls := calls w; stdout := stdout w |}.

Definition set_objects (o : gmap nat instance) (w : world) : world :=
  {| clock := clock w; q := q w; last_runs := last_runs w; objects := o;
     threads := threads w; calls := calls w; stdout := stdout w |}.

Definition set_threads (l : list nat) (w : world) : world :=
  {| clock := clock w; q := q w; last_runs := last_runs w; objects := objects w;
     threads := l; calls := calls w; stdout := stdout w |}.

Definition set_calls (l : list call) (w : world) : world :=
  {| clock := clock w; q := q w; last_runs := last_runs w; objects := objects w;
     threads := threads w; calls := l; stdout := stdout w |}.

Definition set_stdout (l : list (list chunk)) (w : world) : world :=
  {| clock := clock w; q := q w; last_runs := last_runs w; objects := objects w;
     threads := threads w; calls := calls w; stdout := l |}.

(** ** The standard library calls the daemon makes *)

Definition time_monotonic (w : world) : Q := clock w.

(** [time.sleep(secs)]: a negative length raises [ValueError].  The sleep
    lasts [secs] here; the theorems take that for a lower bound. *)
Definition time_sleep (secs : Q) (w : world) : world + exn :=
  if Qlt_le_dec secs 0
  then inr (ValueError "sleep length must be non-negative")
  else inl (set_clock (clock w + secs) w).

(** [q.put(item)] *)
Definition q_put (it : item) (w : world) : world :=
  set_q (q w ++ [it])%list w.

(** [q.get(block=True, timeout=...)]: the call blocks for [waited] seconds
    and then hands out the oldest message, or raises [Empty] ([None]) when
    there is none.  [q] lists the messages in the order the consumer gets
    them; a call that raises [Empty] has blocked for the whole timeout. *)
Definition q_get (waited : Q) (w : world) : option item * world :=
  match q w with
  | [] => (None, set_clock (clock w + waited) w)
  | (it :: rest)%list => (Some it, set_q rest (set_clock (clock w + waited) w))
  end.

(** ** class Daemon *)

Definition plugin_name : string := "SublimeLinter".

Module Daemon.

Definition MIN_DELAY : Q := 0.1.

(** Class attributes [running = False] and [callback = None]. *)
Definition running : bool := false.
Definition callback : option callback_fn := None.

Definition dict_of (self : nat) (w : world) : instance :=
  default new_instance (objects w !! self).

(** Reading [self.running] and [self.callback]: the instance dictionary
    first, then the class. *)
Definition get_running (self : nat) (w : world) : bool :=
  default running (running_attr (dict_of self w)).

Definition get_callback (self : nat) (w : world) : option callback_fn :=
  default callback (callback_attr (dict_of self w)).

(** Assigning through [self] writes the instance dictionary. *)
Definition set_running (self : nat) (b : bool) (w : world) : world :=
  set_objects
    (<[self := {| running_attr := Some b;
                  callback_attr := callback_attr (dict_of self w) |}]>
       (objects w)) w.

Definition set_callback (self : nat) (cb : option callback_fn) (w : world) : world :=
  set_objects
    (<[self := {| running_attr := running_attr (dict_of self w);
                  callback_attr := Some cb |}]>
       (objects w)) w.

(** [Daemon()] *)
Definition construct (w : world) : nat * world :=
  let self := fresh (dom (objects w)) in
  (self, set_objects (<[self := new_instance]> (objects w)) w).

(** [threading.Thread(target=self.loop).start()] *)
Definition thread_start (self : nat) (w : world) : world :=
  set_threads (threads w ++ [self])%list w.

(** [printf(self, *args)]: the prefix, every argument followed by a
    space, then the end of the line. *)
Definition printf (args : list chunk) (w : world) : world :=
  set_stdout
    (stdout w ++
       [(Text (plugin_name ++ ": ")%string
           :: flat_map (fun a => [a; Text " "]%list) args)%list])%list
    w.

Definition start (self : nat) (cb : option callback_fn) (w : world) : world :=
  let w := set_callback self cb w in
  if get_running self w then q_put (Str "reload") w
  else
    let w := set_running self true w in
    thread_start self w.

(** [reenter]: calls [self.callback(view_id, timestamp)]; the second
    component is the exception that escapes, if any. *)
Definition reenter (self : nat) (view_id : Z) (timestamp : Q) (w : world)
  : world * option exn :=
  match get_callback self w with
  | None => (w, Some (TypeError "'NoneType' object is not callable"))
  | Some f =>
      let w' :=
        set_calls
          (calls w ++
             [{| call_view := view_id; call_timestamp := timestamp;
                 call_at := clock w |}])%list w in
      match f view_id timestamp with
      | Returns => (w', None)
      | Raises e => (w', Some e)
      end
  end.

(** How the body of [try] ends: normally (this includes [continue]) or
    with an exception; either way with the process and the local
    [last_runs] as they were left. *)
Inductive ending : Type :=
| Normal (w : world) (local_last_runs : gmap Z Q)
| Raised (e : exn) (w : world) (local_last_runs : gmap Z Q).

(** The [for] loop of the [except Empty] branch, over the items of
    [last_runs.copy()]. *)
Fixpoint sweep (self : nat) (items : list (Z * Q)) (w : world)
    (local_last_runs : gmap Z Q) : ending :=
  match items with
  | [] => Normal w local_last_runs
  | ((view_id, timestamp) :: rest)%list =>
      if Qlt_le_dec (timestamp + MIN_DELAY) (time_monotonic w) then
        let w := set_last_runs (<[view_id := time_monotonic w]> (last_runs w)) w in
        match local_last_runs !! view_id with
        | None => Raised (KeyError view_id) w local_last_runs
        | Some _ =>
            let local_last_runs := delete view_id local_last_runs in
            match reenter self view_id timestamp w with
            | (w, None) => sweep self rest w local_last_runs
            | (w, Some e) => Raised e w local_last_runs
            end
        end
      else sweep self rest w local_last_runs
  end.

(** The body of [try] in [loop]. *)
Definition loop_try (self : nat) (waited : Q) (w : world)
    (local_last_runs : gmap Z Q) : ending :=
  match q_get waited w with
  | (None, w) => sweep self (map_to_list local_last_runs) w local_last_runs
  | (Some it, w) =>
      match it with
      | Pair view_id timestamp =>
          match last_runs w !! view_id with
          | Some last =>
              if Qlt_le_dec timestamp last
              then Normal w local_last_runs
              else Normal w (<[view_id := timestamp]> local_last_runs)
          | None => Normal w (<[view_id := timestamp]> local_last_runs)
          end
      | Tuple01 false =>
          Raised (ValueError "need more than 0 values to unpack") w local_last_runs
      | Tuple01 true =>
          Raised (ValueError "need more than 1 value to unpack") w local_last_runs
      | TupleLong _ =>
          Raised (ValueError "too many values to unpack (expected 2)") w local_last_runs
      | Number x =>
          match time_sleep x w with
          | inl w => Normal w local_last_runs
          | inr e => Raised e w local_last_runs
          end
      | Str s =>
          if String.eqb s "reload"
          then Normal (printf [Text "daemon detected a reload"] w) local_last_runs
          else Normal w local_last_runs
      | Object _ =>
          Normal (printf [Text "unknown message sent to daemon:"; Shown it] w)
            local_last_runs
      end
  end.

(** ['-' * 20] *)
Definition dashes : string := "--------------------".

(** The bare [except:] clause. *)
Definition report (e : exn) (w : world) : world :=
  printf [Text dashes]
    (printf [FormatExc e]
       (printf [Text dashes]
          (printf [Text "error in SublimeLinter daemon:"] w))).

(** One turn of [while True]. *)
Definition loop_iteration (self : nat) (waited : Q)
    (s : world * gmap Z Q) : world * gmap Z Q :=
  match loop_try self waited s.1 s.2 with
  | Normal w local_last_runs => (w, local_last_runs)
  | Raised e w local_last_runs => (report e w, local_last_runs)
  end.

(** As many turns as [waits] has elements. *)
Fixpoint iterations (self : nat) (waits : list Q)
    (s : world * gmap Z Q) : world * gmap Z Q :=
  match waits with
  | [] => s
  | (waited :: rest)%list => iterations self rest (loop_iteration self waited s)
  end.

(** [loop]: [last_runs = {}], then the turns. *)
Definition loop (self : nat) (waits : list Q) (w : world) : world * gmap Z Q :=
  iterations self waits (w, ∅).

(** [hit(view)]; the view is given by [view.id()]. *)
Definition hit (self : nat) (view_id : Z) (w : world) : Q * world :=
  let timestamp := time_monotonic w in
  (timestamp, q_put (Pair view_id timestamp) w).

(** [delay(milliseconds=100)] *)
Definition delay (self : nat) (milliseconds : Q) (w : world) : world :=
  q_put (Number (milliseconds / 1000)) w.

Definition delay_default (self : nat) (w : world) : world :=
  delay self 100 w.


End Daemon.

(** ** Module level: [queue = Daemon()] *)

(** The process right after the class body has run, its clock reading [t]. *)
Definition class_defined (t : Q) : world :=
  {| clock := t; q := []; last_runs := ∅; objects := ∅; threads := [];
     calls := []; stdout := [] |}.

Definition queue : nat := (Daemon.construct (class_defined 0)).1.

Definition module_loaded (t : Q) : world := (Daemon.construct (class_defined t)).2.


(** * Properties *)

Import Daemon.

(** ** Vocabulary *)

Definition ending_world (r : ending) : world :=
  match r with Normal w _ | Raised _ w _ => w end.

Definition ending_local (r : ending) : gmap Z Q :=
  match r with Normal _ p | Raised _ _ p => p end.

Definition ending_exn (r : ending) : option exn :=
  match r with Normal _ _ => None | Raised e _ _ => Some e end.

(** The request [(view_id, timestamp)] is not stale on receipt: the guard
    of [loop] lets it into the local [last_runs]. *)
Definition accepted (view_id : Z) (timestamp : Q) (w : world) : Prop :=
  ∀ last, last_runs w !! view_id = Some last → last <= timestamp.

(** The blocking times [waits] are those of a consumer that finds [msgs]
    messages before the queue runs dry: no wait is negative, and a [q.get]
    that raises [Empty] has lasted the timeout at least. *)
Fixpoint on_time (msgs : nat) (waits : list Q) : Prop :=
  match waits with
  | [] => True
  | (x :: rest)%list =>
      match msgs with
      | O => MIN_DELAY <= x ∧ on_time O rest
      | S m => 0 <= x ∧ on_time m rest
      end
  end.

(** The items of [last_runs.copy()]: one per key, each key still in the
    dict the loop deletes from. *)
Definition snapshot_of (items : list (Z * Q)) (p : gmap Z Q) : Prop :=
  NoDup items.*1 ∧ ∀ k t, (k, t) ∈ items → is_Some (p !! k).

(** The sweep has left the entry [(view_id, ts)] alone: the table entry
    of the view is what it was, the request is pending and no call was
    made for the view. *)
Definition untouched (view_id : Z) (ts : Q)
    (before after : world * gmap Z Q) (new : list call) : Prop :=
  last_runs after.1 !! view_id = last_runs before.1 !! view_id
  ∧ after.2 !! view_id = Some ts
  ∧ Forall (λ c, call_view c ≠ view_id) new.

(** A callback that always returns, and the process once the plugin has
    loaded at clock reading [t] and started the daemon with it. *)
Definition always_returns : callback_fn := λ _ _, Returns.

Definition plugin_started (t : Q) : world :=
  start queue (Some always_returns) (module_loaded t).

(** A callback that raises whatever it is called with. *)
Definition always_raises : callback_fn :=
  λ _ _, Raises (CallbackError "lint failed").

(** The process after the consumer has taken a message off the queue,
    [waited] seconds into its [q.get]. *)
Definition received (waited : Q) (rest : list item) (w : world) : world :=
  set_q rest (set_clock (clock w + waited) w).

(** The four lines of the [except:] clause for the exception [e]. *)
Definition diagnostic (e : exn) : list (list chunk) :=
  [ [Text "SublimeLinter: "; Text "error in SublimeLinter daemon:"; Text " "];
    [Text "SublimeLinter: "; Text "--------------------"; Text " "];
    [Text "SublimeLinter: "; FormatExc e; Text " "];
    [Text "SublimeLinter: "; Text "--------------------"; Text " "] ]%list.

(** Unfolds a turn that receives the message [it] down to its cases. *)
Ltac message_turn w it Hq :=
  unfold loop_iteration, loop_try, q_get, time_sleep; simpl;
  rewrite Hq; simpl;
  destruct it as [?k ?t|[]|?n|?x|?s|?r]; simpl;
  repeat match goal with
  | |- context [last_runs w !! ?k] => destruct (last_runs w !! k) eqn:?; simpl
  | |- context [Qlt_le_dec ?a ?b] => destruct (Qlt_le_dec a b); simpl
  | |- context [String.eqb ?a ?b] => destruct (String.eqb a b) eqn:?; simpl
  end.

(** ** Further vocabulary *)



(** The loop and the threads that feed it, interleaved: the consumer makes
    a turn, or some thread puts a message on the queue ([hit], [delay] and
    [start] do nothing else to what the loop reads). *)
Inductive action : Type :=
| Turn (waited : Q)
| Put (it : item).

Fixpoint run (self : nat) (acts : list action)
    (s : world * gmap Z Q) : world * gmap Z Q :=
  match acts with
  | [] => s
  | (Turn waited :: rest)%list => run self rest (loop_iteration self waited s)
  | (Put it :: rest)%list => run self rest (q_put it s.1, s.2)
  end.

(** The threads and the [running] flags agree: an object has a thread on
    its loop exactly when it is running, and never two. *)
Definition one_thread_each (w : world) : Prop :=
  NoDup (threads w) ∧ ∀ o, o ∈ threads w ↔ get_running o w = true.

(** ** The loop when [print] fails *)

(** ['\n'] *)
Definition newline : string := String (Ascii.ascii_of_nat 10) EmptyString.

(** A result that may be an exception, with the process as it was left;
    [and_then] goes on with the next statement when there is none. *)
Definition and_then (r : world * option exn)
    (next : world → world * option exn) : world * option exn :=
  match r with
  | (w, None) => next w
  | (w, Some e) => (w, Some e)
  end.

Section PrintFails.

(** [print] writes to [sys.stdout], and a write can raise: the stream is
    closed, or its encoding has no code for a character of the text.
    [writes c] is the exception that writing the chunk [c] raises, if any.
    What follows is [printf], the body of [try], the [except:] clause and
    the loop once more, with every [print] of the source going through
    [writes]. *)
Variable writes : chunk → option exn.

(** The chunks up to the first one that cannot be written, and the
    exception that one raises. *)
Fixpoint write_all (chunks : list chunk) : list chunk * option exn :=
  match chunks with
  | [] => ([], None)
  | (c :: rest)%list =>
      match writes c with
      | Some e => ([], Some e)
      | None => let (written, r) := write_all rest in ((c :: written)%list, r)
      end
  end.

(** What a [printf] call got written is kept as a line of its own, also
    when the call raised before the line was complete. *)
Definition record (written : list chunk) (w : world) : world :=
  match written with
  | [] => w
  | _ => set_stdout (stdout w ++ [written])%list w
  end.

(** [printf(self, *args)]: [print(plugin_name + ': ', end='')], a
    [print(arg, end=' ')] for each argument, [print()].  The empty [end] of
    the first [print] is no text to write. *)
Definition printf_io (args : list chunk) (w : world) : world * option exn :=
  let (written, r) :=
    write_all (Text (plugin_name ++ ": ")%string
                 :: flat_map (λ a, [a; Text " "]%list) args)%list in
  match r with
  | Some e => (record written w, Some e)
  | None => (record written w, writes (Text newline))
  end.

(** How the body of [try] ends after a [printf] as its last statement. *)
Definition printed (r : world * option exn) (local_last_runs : gmap Z Q) : ending :=
  match r with
  | (w, None) => Normal w local_last_runs
  | (w, Some e) => Raised e w local_last_runs
  end.

(** The body of [try] in [loop]. *)
Definition loop_try_io (self : nat) (waited : Q) (w : world)
    (local_last_runs : gmap Z Q) : ending :=
  match q_get waited w with
  | (None, w) => sweep self (map_to_list local_last_runs) w local_last_runs
  | (Some it, w) =>
      match it with
      | Pair view_id timestamp =>
          match last_runs w !! view_id with
          | Some last =>
              if Qlt_le_dec timestamp last
              then Normal w local_last_runs
              else Normal w (<[view_id := timestamp]> local_last_runs)
          | None => Normal w (<[view_id := timestamp]> local_last_runs)
          end
      | Tuple01 false =>
          Raised (ValueError "need more than 0 values to unpack") w local_last_runs
      | Tuple01 true =>
          Raised (ValueError "need more than 1 value to unpack") w local_last_runs
      | TupleLong _ =>
          Raised (ValueError "too many values to unpack (expected 2)") w local_last_runs
      | Number x =>
          match time_sleep x w with
          | inl w => Normal w local_last_runs
          | inr e => Raised e w local_last_runs
          end
      | Str s =>
          if String.eqb s "reload"
          then printed (printf_io [Text "daemon detected a reload"] w) local_last_runs
          else Normal w local_last_runs
      | Object _ =>
          printed (printf_io [Text "unknown message sent to daemon:"; Shown it] w)
            local_last_runs
      end
  end.

(** The bare [except:] clause: four [printf] calls with nothing around
    them, so that an exception raised by one of them leaves the clause. *)
Definition report_io (e : exn) (w : world) : world * option exn :=
  and_then (printf_io [Text "error in SublimeLinter daemon:"] w) (λ w,
  and_then (printf_io [Text dashes] w) (λ w,
  and_then (printf_io [FormatExc e] w) (λ w,
  printf_io [Text dashes] w))).

(** One turn of [while True]; the second component is the exception that
    leaves the [try] statement, if any. *)
Definition loop_iteration_io (self : nat) (waited : Q)
    (s : world * gmap Z Q) : (world * gmap Z Q) * option exn :=
  match loop_try_io self waited s.1 s.2 with
  | Normal w local_last_runs => ((w, local_last_runs), None)
  | Raised e w local_last_runs =>
      let (w, r) := report_io e w in ((w, local_last_runs), r)
  end.

(** The turns of [while True], as many as [waits] has elements at most: an
    exception that leaves a turn leaves [loop], and the thread ends. *)
Fixpoint iterations_io (self : nat) (waits : list Q)
    (s : world * gmap Z Q) : (world * gmap Z Q) * option exn :=
  match waits with
  | [] => (s, None)
  | (waited :: rest)%list =>
      match loop_iteration_io self waited s with
      | (s, None) => iterations_io self rest s
      | (s, Some e) => (s, Some e)
      end
  end.

Definition loop_io (self : nat) (waits : list Q) (w : world)
    : (world * gmap Z Q) * option exn :=
  iterations_io self waits (w, ∅).

End PrintFails.

(** A standard output that takes everything, one that is closed, and one
    whose encoding cannot take the text of a traceback
    ([UnicodeEncodeError] is a [ValueError]). *)
Definition stdout_open : chunk → option exn := λ _, None.



(** ** The rest of the module: settings, edits, linters, gutter marks *)

(** The values of the settings: what [json] makes of a settings file. *)
#[warnings="-register-all"]
Inductive pyvalue : Type :=
| PyNone
| PyBool (b : bool)
| PyInt (n : Z)
| PyFloat (x : Q)
| PyStr (s : string)
| PyList (l : list pyvalue)
| PyDict (d : gmap string pyvalue).

(** [bool(v)] *)
Definition truthy (v : pyvalue) : bool :=
  match v with
  | PyNone => false
  | PyBool b => b
  | PyInt n => negb (n =? 0)%Z
  | PyFloat x => negb (Qeq_bool x 0)
  | PyStr s => negb (String.eqb s "")
  | PyList l => match l with [] => false | _ => true end
  | PyDict d => negb (bool_decide (size d = 0%nat))
  end.

(** [Daemon.debug(self, *args)], given the contents of [self.settings]. *)
Definition debug (settings : gmap string pyvalue) (args : list chunk)
    (w : world) : world :=
  if truthy (default PyNone (settings !! "debug"%string))
  then printf args w
  else w.

Section Edits.

(** [E] is the edit token Sublime Text hands to a text command, [V] the
    state of its views.  A callback stored in [edits] is called with the
    token; it may change the views and may raise. *)
Context {E V : Type}.

Definition edit_callback : Type := E → V → V * option exn.

(** [for c in callbacks: c(edit)] *)
Fixpoint run_callbacks (callbacks : list edit_callback) (e : E) (v : V)
    : V * option exn :=
  match callbacks with
  | [] => (v, None)
  | (c :: rest)%list =>
      match c e v with
      | (v, None) => run_callbacks rest e v
      | (v, Some x) => (v, Some x)
      end
  end.

(** [edits[vid].append(c)] on [edits = defaultdict(list)] *)
Definition edits_append (vid : Z) (c : edit_callback)
    (edits : gmap Z (list edit_callback)) : gmap Z (list edit_callback) :=
  <[vid := (default [] (edits !! vid) ++ [c])%list]> edits.

(** [edit(vid, edit)]: the dict afterwards, the views afterwards, and the
    exception that escapes, if any. *)
Definition edit (vid : Z) (e : E) (edits : gmap Z (list edit_callback)) (v : V)
    : gmap Z (list edit_callback) * (V * option exn) :=
  let callbacks := default [] (edits !! vid) in
  (delete vid edits, run_callbacks callbacks e v).

End Edits.

(** *** [update_user_settings] *)

(** The loop that fills in the default linter settings.  [languages] gives
    for each registered linter what its [get_settings()] returns, [linters]
    is the ['linters'] entry of the settings, a dict of dicts as the
    settings file has it.  One step: [default = get_settings().copy()],
    [default.update(linters.pop(name, {}))], [linters[name] = default]. *)
Definition fill_step (linters : gmap string (gmap string pyvalue))
    (entry : string * gmap string pyvalue) : gmap string (gmap string pyvalue) :=
  let default_ := entry.2 in
  let default_ := default ∅ (linters !! entry.1) ∪ default_ in
  <[entry.1 := default_]> (delete entry.1 linters).

Definition fill_linters (languages : gmap string (gmap string pyvalue))
    (linters : gmap string (gmap string pyvalue))
    : gmap string (gmap string pyvalue) :=
  foldl fill_step linters (map_to_list languages).

(** What the function needs to know of a view. *)
Record view : Type := View {
  ident : Z;                      (* view.id() *)
  file_name : option string;      (* view.file_name(), None for a new buffer *)
  is_dirty : bool;
}.

(** The two nested loops over [sublime.windows()] and [w.views()]. *)
Fixpoint find_in_views (views : list view) (user_prefs_path : string)
    : option view :=
  match views with
  | [] => None
  | (v :: rest)%list =>
      if bool_decide (file_name v = Some user_prefs_path) then Some v
      else find_in_views rest user_prefs_path
  end.

Fixpoint find_in_windows (windows : list (list view)) (user_prefs_path : string)
    : option view :=
  match windows with
  | [] => None
  | (views :: rest)%list =>
      match find_in_views views user_prefs_path with
      | Some v => Some v
      | None => find_in_windows rest user_prefs_path
      end
  end.

(** Where the settings end up: in a view, through the callback [replace]
    and the two commands run on the view, or in the settings file. *)
Inductive destination : Type :=
| InView (v : view)
| InSettingsFile.

(** [update_user_settings(view)], after [load_settings()]: the new
    ['linters'] entry of [settings] and the destination. *)
Definition update_user_settings (view_arg : option view)
    (languages : gmap string (gmap string pyvalue))
    (linters : option (gmap string (gmap string pyvalue)))
    (windows : list (list view)) (user_prefs_path : string)
    : gmap string (gmap string pyvalue) * destination :=
  let linters := fill_linters languages (default ∅ linters) in
  let view_ :=
    match view_arg with
    | None => find_in_windows windows user_prefs_path
    | Some v => Some v
    end in
  match view_ with
  | Some v => (linters, InView v)
  | None => (linters, InSettingsFile)
  end.

(** The callback [replace] that [update_user_settings] appends to [edits]
    for the view [v]: [text] is the JSON text of the settings, [dirty] and
    [replace_all] are [view.is_dirty()] and [view.replace] over the whole
    buffer, as the views [V] have them. *)
Definition replace {E V : Type} (dirty : Z → V → bool)
    (replace_all : Z → string → V → V) (v : view) (text : string)
    : @edit_callback E V :=
  λ _ views,
    if negb (dirty (ident v) views)
    then (replace_all (ident v) text views, None)
    else (views, None).

(** *** [update_gutter_marks] *)

Section GutterMarks.

(** The file system and the editor, as [os.path] and [sublime] show them. *)
Variables (join : list string → string) (basename : string → string).
Variables (isdir exists_ : string → bool).
Variables (packages_path plugin_directory : string).

(** The [for path in paths] loop: the first sub-path whose directory
    exists. *)
Fixpoint first_theme_path (paths : list (list string)) : option string :=
  match paths with
  | [] => None
  | (path :: rest)%list =>
      let sub_path := join path in
      let full_path := join [packages_path; sub_path] in
      if isdir full_path then Some sub_path else first_theme_path rest
  end.

Definition theme_paths (theme : string) : list (list string) :=
  [ ["User"; "SublimeLinter-gutter-themes"; theme];
    [plugin_directory; "gutter-themes"; theme];
    [plugin_directory; "gutter-themes"; "Default"] ]%string.

(** ['...theme "{}", and the default...'.format(theme)] *)
Definition double_quote : string := String (Ascii.ascii_of_nat 34) EmptyString.

Definition not_available (theme : string) : string :=
  "SublimeLinter: cannot find the gutter theme " +:+ double_quote +:+ theme
  +:+ double_quote
  +:+ ", and the default is also not available. No gutter marks will display.".

(** [settings.get('gutter_theme', 'Default')], when it is a string. *)
Definition gutter_theme (settings : gmap string pyvalue) : option string :=
  match settings !! "gutter_theme"%string with
  | None => Some "Default"%string
  | Some (PyStr theme) => Some theme
  | Some _ => None
  end.

(** What [update_gutter_marks] leaves behind: the dict [gutter_marks], the
    process (for what [printf] writes) and the error dialogs shown.  The
    result is [None] when the theme in the settings is not a string, which
    [os.path.join] answers with an exception. *)
Definition update_gutter_marks (settings : gmap string pyvalue)
    (gutter_marks : gmap string pyvalue) (w : world)
    : option (gmap string pyvalue * world * list string) :=
  match gutter_theme settings with
  | None => None
  | Some theme =>
      let theme_path := first_theme_path (theme_paths theme) in
      let found :=
        match theme_path with
        | Some theme_path => negb (String.eqb theme_path "")
        | None => false
        end in
      if found then
        let theme_path := default ""%string theme_path in
        let w :=
          if negb (String.eqb theme "Default")
             && String.eqb (basename theme_path) "Default"
          then printf [Text ("cannot find the gutter theme '" +:+ theme
                             +:+ "', using the default")] w
          else w in
        let gutter_marks :=
          <["warning"%string :=
              PyStr (join ["Packages"; theme_path; "warning.png"]%string)]>
            gutter_marks in
        let gutter_marks :=
          <["error"%string :=
              PyStr (join ["Packages"; theme_path; "error.png"]%string)]>
            gutter_marks in
        let gutter_marks :=
          <["colorize"%string :=
              PyBool (exists_ (join [packages_path; theme_path; "colorize"%string]))]>
            gutter_marks in
        Some (gutter_marks, w, [])
      else
        let gutter_marks := <["warning"%string := PyStr ""]> gutter_marks in
        let gutter_marks := <["error"%string := PyStr ""]> gutter_marks in
        Some (gutter_marks, w, [not_available theme])
  end.

End GutterMarks.

(** ** The sweep *)

Section Sweep.

Variable self : nat.

Lemma sweep_frame items : ∀ w p,
  clock (ending_world (sweep self items w p)) = clock w
  ∧ q (ending_world (sweep self items w p)) = q w
  ∧ objects (ending_world (sweep self items w p)) = objects w
  ∧ threads (ending_world (sweep self items w p)) = threads w
  ∧ stdout (ending_world (sweep self items w p)) = stdout w.
Proof.
  induction items as [|[k t] rest IH]; intros w p; simpl; first done.
  destruct (Qlt_le_dec _ _); last by apply IH.
  destruct (p !! k); last done.
  unfold reenter; simpl.
  change (get_callback self (set_last_runs _ w)) with (get_callback self w).
  destruct (get_callback self w) as [f|]; last done.
  destruct (f k t); last done.
  match goal with |- context [sweep self rest ?w' ?p'] =>
    destruct (IH w' p') as (-> & -> & -> & -> & ->) end.
  done.
Qed.

(** Every call made by a sweep is for one of the items, which was due, and
    carries the item's own timestamp. *)
Lemma sweep_calls items : ∀ w p,
  ∃ new,
    calls (ending_world (sweep self items w p)) = (calls w ++ new)%list
    ∧ Forall (λ c, (call_view c, call_timestamp c) ∈ items
                   ∧ call_timestamp c + MIN_DELAY < clock w
                   ∧ call_at c = clock w) new.
Proof.
  induction items as [|[k t] rest IH]; intros w p; simpl.
  { exists []. by rewrite app_nil_r. }
  destruct (Qlt_le_dec _ _) as [Hdue|].
  - destruct (p !! k).
    2:{ exists []. by rewrite app_nil_r. }
    unfold reenter; simpl.
    change (get_callback self (set_last_runs _ w)) with (get_callback self w).
    destruct (get_callback self w) as [f|].
    2:{ exists []. by rewrite app_nil_r. }
    assert (Hhead : (k, t) ∈ ((k, t) :: rest)%list ∧ t + MIN_DELAY < clock w
                    ∧ clock w = clock w) by (split; [left | done]).
    destruct (f k t).
    + match goal with |- context [sweep self rest ?w' ?p'] =>
        destruct (IH w' p') as (new & Hc & Hall) end.
      exists ({| call_view := k; call_timestamp := t; call_at := clock w |} :: new)%list.
      split; first by rewrite Hc; simpl; rewrite <- app_assoc.
      constructor; first done.
      eapply Forall_impl; first exact Hall.
      intros c (? & ? & ?); split; [by right | done].
    + exists [{| call_view := k; call_timestamp := t; call_at := clock w |}].
      split; first done. by constructor.
  - destruct (IH w p) as (new & Hc & Hall). exists new. split; first done.
    eapply Forall_impl; first exact Hall.
    intros c (? & ? & ?); split; [by right | done].
Qed.

(** Keys that are not among the items are left alone. *)
Lemma sweep_other items k : ∀ w p,
  k ∉ items.*1 →
  last_runs (ending_world (sweep self items w p)) !! k = last_runs w !! k
  ∧ ending_local (sweep self items w p) !! k = p !! k.
Proof.
  induction items as [|[k' t] rest IH]; intros w p Hk; simpl; first done.
  apply not_elem_of_cons in Hk as [Hne Hk]; simpl in Hne.
  destruct (Qlt_le_dec _ _); last by apply IH.
  destruct (p !! k') eqn:Hp; simpl.
  2:{ by rewrite lookup_insert_ne. }
  unfold reenter; simpl.
  change (get_callback self (set_last_runs _ w)) with (get_callback self w).
  destruct (get_callback self w) as [f|]; simpl.
  2:{ by rewrite lookup_insert_ne, lookup_delete_ne. }
  destruct (f k' t); simpl.
  2:{ by rewrite lookup_insert_ne, lookup_delete_ne. }
  match goal with |- context [sweep self rest ?w' ?p'] =>
    destruct (IH w' p' Hk) as (-> & ->) end.
  simpl. by rewrite lookup_insert_ne, lookup_delete_ne.
Qed.

(** A sweep calls at most once per item, in the order of the items. *)
Lemma sweep_views items : ∀ w p,
  ∃ new,
    calls (ending_world (sweep self items w p)) = (calls w ++ new)%list
    ∧ sublist (map call_view new) items.*1.
Proof.
  induction items as [|[k t] rest IH]; intros w p; simpl.
  { exists []. by rewrite app_nil_r. }
  destruct (Qlt_le_dec _ _).
  - destruct (p !! k).
    2:{ exists []. rewrite app_nil_r. split; [done | apply sublist_nil_l]. }
    unfold reenter; simpl.
    change (get_callback self (set_last_runs _ w)) with (get_callback self w).
    destruct (get_callback self w) as [f|].
    2:{ exists []. rewrite app_nil_r. split; [done | apply sublist_nil_l]. }
    destruct (f k t).
    + match goal with |- context [sweep self rest ?w' ?p'] =>
        destruct (IH w' p') as (new & Hc & Hsub) end.
      exists ({| call_view := k; call_timestamp := t; call_at := clock w |} :: new)%list.
      split; first by rewrite Hc; simpl; rewrite <- app_assoc.
      simpl. by apply sublist_skip.
    + exists [{| call_view := k; call_timestamp := t; call_at := clock w |}].
      split; first done. simpl. apply sublist_skip, sublist_nil_l.
  - destruct (IH w p) as (new & Hc & Hsub). exists new. split; first done.
    by apply sublist_cons.
Qed.

End Sweep.

Section SweepEntries.

Variable self : nat.

Lemma snapshot_of_copy (p : gmap Z Q) : snapshot_of (map_to_list p) p.
Proof.
  split; first apply NoDup_fst_map_to_list.
  intros k t Hin. apply elem_of_map_to_list in Hin. by exists t.
Qed.

Lemma snapshot_of_tail k t rest (p : gmap Z Q) :
  snapshot_of ((k, t) :: rest) p → snapshot_of rest (delete k p).
Proof.
  intros [Hnd Hin]. simpl in Hnd. apply NoDup_cons in Hnd as [Hk Hnd].
  split; first done.
  intros k' t' H'. rewrite lookup_delete_ne; first by eapply Hin; right.
  intros ->. apply Hk. apply list_elem_of_fmap. by exists (k', t').
Qed.

Lemma snapshot_of_skip k t rest (p : gmap Z Q) :
  snapshot_of ((k, t) :: rest) p → snapshot_of rest p.
Proof.
  intros [Hnd Hin]. simpl in Hnd. apply NoDup_cons in Hnd as [Hk Hnd].
  split; first done. intros k' t' H'. eapply Hin. by right.
Qed.

(** With a callback registered, a sweep treats each item as a whole: either
    the three effects of a dispatch all take place, or none does; and none
    does only for an item that is not due or that an exception kept the
    sweep from reaching. *)
Lemma sweep_entry items : ∀ w p k t f,
  get_callback self w = Some f →
  snapshot_of items p →
  (k, t) ∈ items →
  ∃ new,
    calls (ending_world (sweep self items w p)) = (calls w ++ new)%list
    ∧ ((t + MIN_DELAY < clock w
        ∧ last_runs (ending_world (sweep self items w p)) !! k = Some (clock w)
        ∧ ending_local (sweep self items w p) !! k = None
        ∧ {| call_view := k; call_timestamp := t; call_at := clock w |} ∈ new)
       ∨ (last_runs (ending_world (sweep self items w p)) !! k = last_runs w !! k
          ∧ ending_local (sweep self items w p) !! k = p !! k
          ∧ Forall (λ c, call_view c ≠ k) new
          ∧ (clock w <= t + MIN_DELAY
             ∨ is_Some (ending_exn (sweep self items w p))))).
Proof.
  induction items as [|[k' t'] rest IH]; intros w p k t f Hcb Hsnap Hin.
  { by apply elem_of_nil in Hin. }
  assert (Hk' : k' ∉ rest.*1).
  { destruct Hsnap as [Hnd _]. simpl in Hnd. by apply NoDup_cons in Hnd as [? _]. }
  assert (Hviews : ∀ w0 p0 new0,
             calls (ending_world (sweep self rest w0 p0)) = (calls w0 ++ new0)%list →
             k ∉ rest.*1 → Forall (λ c, call_view c ≠ k) new0).
  { intros w0 p0 new0 Hc Hk.
    destruct (sweep_calls self rest w0 p0) as (new1 & Hc1 & Hall).
    rewrite Hc in Hc1. apply app_inv_head in Hc1 as ->.
    eapply Forall_impl; first exact Hall.
    intros c (Hc' & _) <-. apply Hk. apply list_elem_of_fmap.
    by exists (call_view c, call_timestamp c). }
  pose proof (snapshot_of_tail _ _ _ _ Hsnap) as Htail.
  pose proof (snapshot_of_skip _ _ _ _ Hsnap) as Hskip.
  destruct Hsnap as [_ Hdom].
  destruct (Hdom k' t') as [old Hold]; first by left.
  simpl. rewrite Hold. unfold reenter; simpl.
  change (get_callback self (set_last_runs _ w)) with (get_callback self w).
  rewrite Hcb.
  apply elem_of_cons in Hin as [Heq | Hin].
  - (* the item at the head of the snapshot *)
    injection Heq as -> ->.
    destruct (Qlt_le_dec _ _) as [Hdue | Hnot].
    + destruct (f k' t') eqn:Hf; simpl.
      * match goal with |- context [sweep self rest ?w' ?p'] =>
          destruct (sweep_calls self rest w' p') as (new & Hc & _);
          destruct (sweep_other self rest k' w' p' Hk') as (Hl & Hp);
          destruct (sweep_frame self rest w' p') as (Hclock & _) end.
        simpl in *.
        exists ({| call_view := k'; call_timestamp := t'; call_at := clock w |} :: new)%list.
        split; first by rewrite Hc, <- app_assoc.
        left. rewrite Hl, Hp, lookup_insert_eq, lookup_delete_eq.
        repeat split; [done | by left].
      * exists [{| call_view := k'; call_timestamp := t'; call_at := clock w |}].
        split; first done.
        left. rewrite lookup_insert_eq, lookup_delete_eq.
        repeat split; [done | by left].
    + destruct (sweep_calls self rest w p) as (new & Hc & _).
      destruct (sweep_other self rest k' w p Hk') as (Hl & Hp).
      exists new. split; first done. right.
      repeat split; [done | done | by eapply Hviews | by left].
  - (* an item further down *)
    assert (Hne : k ≠ k').
    { intros ->. apply Hk'. apply list_elem_of_fmap. by exists (k', t). }
    destruct (Qlt_le_dec _ _) as [Hdue | Hnot]; last by eapply IH.
    destruct (f k' t') eqn:Hf; simpl.
    + match goal with |- context [sweep self rest ?w' ?p'] =>
        destruct (IH w' p' k t f Hcb Htail Hin) as (new & Hc & Hcases) end.
      simpl in *.
      exists ({| call_view := k'; call_timestamp := t'; call_at := clock w |} :: new)%list.
      split; first by rewrite Hc, <- app_assoc.
      rewrite lookup_insert_ne, lookup_delete_ne in Hcases by done.
      destruct Hcases as [(? & ? & ? & ?) | (? & ? & ? & ?)]; [left | right].
      * repeat split; [done | done | done | by right].
      * repeat split; [done | done | by constructor | done].
    + exists [{| call_view := k'; call_timestamp := t'; call_at := clock w |}].
      split; first done. right.
      rewrite lookup_insert_ne, lookup_delete_ne by done.
      repeat split; [by constructor | by right].
Qed.

End SweepEntries.

(** ** One turn of the loop *)

Lemma MIN_DELAY_pos : 0 < MIN_DELAY.
Proof. reflexivity. Qed.

Section Turn.

Variable self : nat.

(** What a turn does to the world when the sweep is left aside. *)
Lemma turn_of_sweep waited w p :
  q w = [] →
  loop_try self waited w p
  = sweep self (map_to_list p) (set_clock (clock w + waited) w) p.
Proof. intros Hq. unfold loop_try, q_get. by rewrite Hq. Qed.

Lemma report_frame e w :
  clock (report e w) = clock w ∧ q (report e w) = q w
  ∧ last_runs (report e w) = last_runs w ∧ objects (report e w) = objects w
  ∧ threads (report e w) = threads w ∧ calls (report e w) = calls w.
Proof. done. Qed.

Lemma turn_objects waited s :
  objects (loop_iteration self waited s).1 = objects s.1
  ∧ threads (loop_iteration self waited s).1 = threads s.1.
Proof.
  destruct s as [w p]. unfold loop_iteration; simpl.
  destruct (q w) as [|it rest] eqn:Hq.
  - rewrite turn_of_sweep by done.
    destruct (sweep_frame self (map_to_list p) (set_clock (clock w + waited) w) p)
      as (_ & _ & Ho & Ht & _).
    by destruct (sweep _ _ _ _).
  - message_turn w it Hq; done.
Qed.

Lemma turn_q waited s :
  q (loop_iteration self waited s).1 = tail (q s.1).
Proof.
  destruct s as [w p]. unfold loop_iteration; simpl.
  destruct (q w) as [|it rest] eqn:Hq.
  - rewrite turn_of_sweep by done.
    destruct (sweep_frame self (map_to_list p) (set_clock (clock w + waited) w) p)
      as (_ & Hq' & _).
    destruct (sweep _ _ _ _); simpl in *; by rewrite Hq'.
  - message_turn w it Hq; done.
Qed.

Lemma turn_clock waited s :
  clock s.1 + waited <= clock (loop_iteration self waited s).1.
Proof.
  destruct s as [w p]. unfold loop_iteration; simpl.
  destruct (q w) as [|it rest] eqn:Hq.
  - rewrite turn_of_sweep by done.
    destruct (sweep_frame self (map_to_list p) (set_clock (clock w + waited) w) p)
      as (Hc & _).
    destruct (sweep _ _ _ _); simpl in *; rewrite Hc; lra.
  - message_turn w it Hq; lra.
Qed.

(** Only a turn whose [q.get] raised [Empty] calls the callback, and it
    does so at the clock reading of the timeout. *)
Lemma turn_calls waited s :
  ∃ new,
    calls (loop_iteration self waited s).1 = (calls s.1 ++ new)%list
    ∧ (q s.1 ≠ [] → new = [])
    ∧ Forall (λ c, call_at c = clock s.1 + waited) new.
Proof.
  destruct s as [w p]. unfold loop_iteration; simpl.
  destruct (q w) as [|it rest] eqn:Hq.
  - rewrite turn_of_sweep by done.
    destruct (sweep_calls self (map_to_list p) (set_clock (clock w + waited) w) p)
      as (new & Hc & Hall).
    exists new. split; last split; [| done |].
    + by destruct (sweep _ _ _ _).
    + eapply Forall_impl; first exact Hall. by intros c (_ & _ & ?).
  - exists []. rewrite app_nil_r. split; last done.
    message_turn w it Hq; done.
Qed.

(** A turn that receives a message leaves the table of last runs alone. *)
Lemma turn_message_last_runs waited s :
  q s.1 ≠ [] → last_runs (loop_iteration self waited s).1 = last_runs s.1.
Proof.
  destruct s as [w p]; simpl. intros Hne.
  destruct (q w) as [|it rest] eqn:Hq; first done.
  message_turn w it Hq; done.
Qed.

End Turn.

(** ** Several turns *)

Section Turns.

Variable self : nat.



Lemma turns_app waits1 waits2 s :
  iterations self (waits1 ++ waits2) s
  = iterations self waits2 (iterations self waits1 s).
Proof. revert s. induction waits1; intros s; simpl; [done | by rewrite IHwaits1]. Qed.

(** Whatever the turns, a callback is never called less than [MIN_DELAY]
    after they begin; the clock never runs backwards. *)
Lemma turns_calls waits : ∀ s,
  on_time (length (q s.1)) waits →
  clock s.1 <= clock (iterations self waits s).1
  ∧ ∃ new,
      calls (iterations self waits s).1 = (calls s.1 ++ new)%list
      ∧ Forall (λ c, clock s.1 + MIN_DELAY <= call_at c) new.
Proof.
  induction waits as [|x rest IH]; intros s Hon; simpl.
  { split; first lra. exists []. by rewrite app_nil_r. }
  pose proof (turn_clock self x s) as Hclock.
  pose proof (turn_q self x s) as Hq.
  destruct (turn_calls self x s) as (new1 & Hc1 & Hnone & Hat).
  pose proof MIN_DELAY_pos as Hpos.
  simpl in Hon. destruct (q s.1) as [|it l] eqn:Hqs; simpl in Hon, Hq.
  - destruct Hon as [Hx Hon].
    destruct (IH (loop_iteration self x s)) as (Hmono & new2 & Hc2 & Hlate).
    { by rewrite Hq. }
    split; first lra.
    exists (new1 ++ new2)%list. split; first by rewrite Hc2, Hc1, app_assoc.
    apply Forall_app. split.
    + eapply Forall_impl; first exact Hat. intros c ->. lra.
    + eapply Forall_impl; first exact Hlate. intros c ?; simpl in *; lra.
  - destruct Hon as [Hx Hon].
    destruct (IH (loop_iteration self x s)) as (Hmono & new2 & Hc2 & Hlate).
    { by rewrite Hq. }
    split; first lra.
    exists new2. rewrite Hnone in Hc1 by done. rewrite app_nil_r in Hc1.
    split; first by rewrite Hc2, Hc1.
    eapply Forall_impl; first exact Hlate. intros c ?; simpl in *; lra.
Qed.

End Turns.

(** ** The turn that sweeps *)

Section Dispatch.

Variable self : nat.

(** How a turn ends, read off the way its [try] body ends. *)
Lemma turn_ending waited w p :
  (loop_iteration self waited (w, p)).2 = ending_local (loop_try self waited w p)
  ∧ clock (loop_iteration self waited (w, p)).1
    = clock (ending_world (loop_try self waited w p))
  ∧ last_runs (loop_iteration self waited (w, p)).1
    = last_runs (ending_world (loop_try self waited w p))
  ∧ calls (loop_iteration self waited (w, p)).1
    = calls (ending_world (loop_try self waited w p)).
Proof. unfold loop_iteration; simpl. by destruct (loop_try _ _ _ _). Qed.

End Dispatch.

Section SweepTurn.

Variable self : nat.

(** The turn that sweeps, with a callback registered: every call it makes
    is for a pending entry that was due, carries the timestamp of the entry
    and goes with the two other effects of a dispatch; a view for which it
    makes no call is left as it was. *)
Lemma turn_sweeps waited w p f :
  q w = [] →
  get_callback self w = Some f →
  ∃ new,
    calls (loop_iteration self waited (w, p)).1 = (calls w ++ new)%list
    ∧ clock (loop_iteration self waited (w, p)).1 = clock w + waited
    ∧ NoDup (map call_view new)
    ∧ Forall (λ c, p !! call_view c = Some (call_timestamp c)
                   ∧ call_timestamp c + MIN_DELAY < clock w + waited
                   ∧ call_at c = clock w + waited
                   ∧ last_runs (loop_iteration self waited (w, p)).1 !! call_view c
                     = Some (clock w + waited)
                   ∧ (loop_iteration self waited (w, p)).2 !! call_view c = None) new
    ∧ ∀ view_id,
        (∃ c, c ∈ new ∧ call_view c = view_id)
        ∨ (last_runs (loop_iteration self waited (w, p)).1 !! view_id
           = last_runs w !! view_id
           ∧ (loop_iteration self waited (w, p)).2 !! view_id = p !! view_id
           ∧ Forall (λ c, call_view c ≠ view_id) new
           ∧ ∀ ts, p !! view_id = Some ts →
                   clock w + waited <= ts + MIN_DELAY
                   ∨ is_Some (ending_exn (loop_try self waited w p))).
Proof.
  intros Hq Hcb.
  destruct (turn_ending self waited w p) as (Hl & Hclock & Hlr & Hc).
  rewrite Hl, Hlr, Hc, Hclock. clear Hl Hlr Hc Hclock.
  rewrite turn_of_sweep by done.
  set (w1 := set_clock (clock w + waited) w).
  destruct (sweep_calls self (map_to_list p) w1 p) as (new & Hnew & Hall).
  destruct (sweep_views self (map_to_list p) w1 p) as (new' & Hnew' & Hsub).
  rewrite Hnew in Hnew'. apply app_inv_head in Hnew' as <-.
  destruct (sweep_frame self (map_to_list p) w1 p) as (Hclock & _).
  assert (Hentry : ∀ k t, p !! k = Some t →
            (last_runs (ending_world (sweep self (map_to_list p) w1 p)) !! k
             = Some (clock w + waited)
             ∧ ending_local (sweep self (map_to_list p) w1 p) !! k = None
             ∧ {| call_view := k; call_timestamp := t; call_at := clock w + waited |}
               ∈ new)
            ∨ (last_runs (ending_world (sweep self (map_to_list p) w1 p)) !! k
               = last_runs w !! k
               ∧ ending_local (sweep self (map_to_list p) w1 p) !! k = p !! k
               ∧ Forall (λ c, call_view c ≠ k) new
               ∧ (clock w + waited <= t + MIN_DELAY
                  ∨ is_Some (ending_exn (sweep self (map_to_list p) w1 p))))).
  { intros k t Hk.
    destruct (sweep_entry self (map_to_list p) w1 p k t f Hcb (snapshot_of_copy p))
      as (new' & Hnew' & Hcases); first by apply elem_of_map_to_list.
    rewrite Hnew in Hnew'. apply app_inv_head in Hnew' as <-.
    destruct Hcases as [(_ & ? & ? & ?) | (? & ? & ? & ?)]; [by left | by right]. }
  exists new. split; first done. split; first done. split; last split.
  - exact (sublist_NoDup _ _ (NoDup_fst_map_to_list p) Hsub).
  - apply Forall_forall. intros c Hin.
    rewrite Forall_forall in Hall. destruct (Hall c Hin) as (Hitem & Hdue & Hat).
    apply elem_of_map_to_list in Hitem. simpl in Hdue, Hat.
    split; first done. split; first done. split; first done.
    destruct (Hentry _ _ Hitem) as [(? & ? & _) | (_ & _ & Hno & _)]; first done.
    rewrite Forall_forall in Hno. by destruct (Hno c Hin).
  - intros view_id. destruct (p !! view_id) as [ts|] eqn:Hp.
    + destruct (Hentry _ _ Hp) as [(_ & _ & Hin) | (? & ? & ? & ?)].
      * left. by eexists.
      * right. split; first done. split; first congruence. split; first done.
        intros ts' Hts'. by injection Hts' as <-.
    + right.
      destruct (sweep_other self (map_to_list p) view_id w1 p) as (Hl & Hp').
      { intros Hin. apply list_elem_of_fmap in Hin as ([k' t'] & -> & Hin).
        apply elem_of_map_to_list in Hin. simpl in Hp. congruence. }
      split; first done. split; first congruence. split; last done.
      eapply Forall_impl; first exact Hall.
      intros c (Hitem & _) Hv. apply elem_of_map_to_list in Hitem. congruence.
Qed.

End SweepTurn.

(** C4.  In a sweep (a turn whose [q.get] raised [Empty]) with a callback
    registered, the three effects of a dispatch come together or not at
    all.  Every call the sweep makes is for a pending entry, with the
    timestamp of that entry as its second argument; the entry has then left
    the local [last_runs], and [Daemon.last_runs] holds for its view a
    clock reading [now] of this sweep, read before the call, which is more
    than [MIN_DELAY] later than the timestamp (so the callback gets the
    timestamp of the request, not [now]).  No view is called for twice; and
    a view for which the sweep makes no call has its table entry and its
    pending entry as they were.  A sweep that no exception cuts short does
    make the call for every entry that is old enough; the bound of twice
    [MIN_DELAY] given for that keeps clear of the rounding of the float
    sum [timestamp + self.MIN_DELAY] in the test of the code. *)
Theorem C4_sweep_dispatches_whole_entry self waited w p f :
  q w = [] →
  get_callback self w = Some f →
  ∃ new,
    calls (loop_iteration self waited (w, p)).1 = (calls w ++ new)%list
    ∧ NoDup (map call_view new)
    ∧ Forall (λ c, ∃ now,
                p !! call_view c = Some (call_timestamp c)
                ∧ last_runs (loop_iteration self waited (w, p)).1 !! call_view c
                  = Some now
                ∧ (loop_iteration self waited (w, p)).2 !! call_view c = None
                ∧ call_timestamp c + MIN_DELAY < now
                ∧ clock w + waited <= now
                ∧ now <= call_at c
                ∧ call_at c <= clock (loop_iteration self waited (w, p)).1) new
    ∧ (∀ view_id,
         (∃ c, c ∈ new ∧ call_view c = view_id)
         ∨ (last_runs (loop_iteration self waited (w, p)).1 !! view_id
            = last_runs w !! view_id
            ∧ (loop_iteration self waited (w, p)).2 !! view_id = p !! view_id))
    ∧ (ending_exn (loop_try self waited w p) = None →
       ∀ view_id ts,
         p !! view_id = Some ts →
         ts + 2 * MIN_DELAY < clock w + waited →
         ∃ c, c ∈ new ∧ call_view c = view_id).
Proof.
  intros Hq Hcb.
  destruct (turn_sweeps self waited w p f Hq Hcb)
    as (new & Hnew & Hclock & Hnd & Hall & Hviews).
  exists new. split; first done. split; first done. split; last split.
  - eapply Forall_impl; first exact Hall.
    intros c (Hp & Hdue & Hat & Hlast & Hgone). exists (clock w + waited).
    rewrite Hclock, Hat. repeat split; try done; lra.
  - intros view_id.
    destruct (Hviews view_id) as [? | (? & ? & _)]; [by left | by right].
  - intros Hnormal view_id ts Hp Hold.
    destruct (Hviews view_id) as [? | (_ & _ & _ & Hwhy)]; first done.
    pose proof MIN_DELAY_pos as Hpos.
    destruct (Hwhy ts Hp) as [Hyoung | Hexn]; first lra.
    rewrite Hnormal in Hexn. by destruct Hexn.
Qed.

(** ** Messages *)

(** C3, as the code has it.  A check request whose timestamp is strictly
    below the entry of [Daemon.last_runs] for its view is dropped on
    receipt: the turn only takes it off the queue, so nothing is left of
    it that a later sweep could dispatch. *)
Theorem C3_request_below_last_run_is_dropped self waited w p view_id ts last rest :
  q w = (Pair view_id ts :: rest)%list →
  last_runs w !! view_id = Some last →
  ts < last →
  loop_iteration self waited (w, p) = (received waited rest w, p).
Proof.
  intros Hq Hlast Hlt.
  unfold loop_iteration, loop_try, q_get; simpl. rewrite Hq; simpl.
  rewrite Hlast. destruct (Qlt_le_dec ts last); [done | lra].
Qed.

Lemma C3_request_below_last_run_is_dropped_witness :
  loop_iteration queue 0
    (set_last_runs {[1%Z := 5]} (set_q [Pair 1 4] (plugin_started 6)), ∅)
  = (received 0 [] (set_last_runs {[1%Z := 5]} (set_q [Pair 1 4] (plugin_started 6))), ∅).
Proof.
  apply (C3_request_below_last_run_is_dropped queue 0 _ ∅ 1%Z 4 5 []);
    reflexivity.
Defined.

(** C3 fails when the timestamp equals the entry of the table: the request
    made at the very clock reading of the last dispatch is accepted and
    dispatched by a later sweep. *)
Lemma C3_equal_timestamp_is_dispatched :
  let s1 := iterations queue [0.05; 0.1] ((hit queue 1 (plugin_started 0)).2, ∅) in
  let request := hit queue 1 s1.1 in
  let s2 := iterations queue [0; 0.2] (request.2, s1.2) in
  last_runs request.2 !! 1%Z = Some request.1
  ∧ ∃ c, calls s2.1 = (calls request.2 ++ [c])%list
         ∧ call_view c = 1%Z ∧ call_timestamp c = request.1.
Proof. vm_compute. split; first done. by eexists. Qed.

(** C5, as the code has it.  Receiving a check request never runs it:
    whether or not anything is pending, the turn calls no callback and
    prints nothing; it records the request (when it is not stale) and the
    callback can only be called by a later sweep, [MIN_DELAY] or more after
    the receipt. *)
Theorem C5_request_is_never_run_on_receipt self waited w p view_id ts rest more :
  q w = (Pair view_id ts :: rest)%list →
  on_time (length rest) more →
  calls (loop_iteration self waited (w, p)).1 = calls w
  ∧ stdout (loop_iteration self waited (w, p)).1 = stdout w
  ∧ (accepted view_id ts w →
     (loop_iteration self waited (w, p)).2 = <[view_id := ts]> p)
  ∧ ∃ new,
      calls (iterations self more (loop_iteration self waited (w, p))).1
      = (calls w ++ new)%list
      ∧ Forall (λ c, clock w + waited + MIN_DELAY <= call_at c) new.
Proof.
  intros Hq Hon.
  assert (Hturn : calls (loop_iteration self waited (w, p)).1 = calls w
                  ∧ stdout (loop_iteration self waited (w, p)).1 = stdout w
                  ∧ clock (loop_iteration self waited (w, p)).1 = clock w + waited).
  { unfold loop_iteration, loop_try, q_get; simpl. rewrite Hq; simpl.
    destruct (last_runs w !! view_id); last done.
    by destruct (Qlt_le_dec _ _). }
  destruct Hturn as (Hc & Ho & Hclock).
  split; first done. split; first done. split.
  - intros Hacc. unfold loop_iteration, loop_try, q_get; simpl. rewrite Hq; simpl.
    destruct (last_runs w !! view_id) as [last|] eqn:Hlast; last done.
    pose proof (Hacc last Hlast).
    destruct (Qlt_le_dec ts last); [lra | done].
  - destruct (turns_calls self more (loop_iteration self waited (w, p)))
      as (_ & new & Hnew & Hall).
    { rewrite turn_q. simpl. by rewrite Hq. }
    exists new. rewrite Hnew, Hc. split; first done.
    eapply Forall_impl; first exact Hall.
    intros c ?; simpl in *. rewrite Hclock in *. done.
Qed.

Lemma C5_request_is_never_run_on_receipt_witness :
  calls (loop_iteration queue 0 ((hit queue 1 (plugin_started 0)).2, ∅)).1 = []
  ∧ (loop_iteration queue 0 ((hit queue 1 (plugin_started 0)).2, ∅)).2 !! 1%Z
    = Some 0.
Proof.
  destruct (C5_request_is_never_run_on_receipt queue 0
              (hit queue 1 (plugin_started 0)).2 ∅ 1%Z 0 [] [])
    as (Hc & _ & Hp & _); [reflexivity | exact I |].
  split; first exact Hc.
  rewrite Hp; first reflexivity.
  intros last Hlast. discriminate Hlast.
Defined.

(** C5 fails: with nothing pending for any document and an empty table, the
    turn that receives a request does not call the callback; the call is
    made by the sweep that follows, [MIN_DELAY] later. *)
Lemma C5_no_immediate_run :
  let w := (hit queue 1 (plugin_started 0)).2 in
  last_runs w = ∅
  ∧ calls (loop queue [0.02] w).1 = []
  ∧ calls (loop queue [0.02; 0.1] w).1
    = [ {| call_view := 1; call_timestamp := 0; call_at := 0 + 0.02 + 0.1 |} ].
Proof. by vm_compute. Qed.




(** ** The loop and standard output *)

Section OpenStdout.

Variable self : nat.

(** With a standard output that takes everything, the definitions that go
    through [write_all] are those that do not. *)
Lemma write_all_open chunks : write_all stdout_open chunks = (chunks, None).
Proof. induction chunks as [|c rest IH]; simpl; [done | by rewrite IH]. Qed.

Lemma printf_io_open args w : printf_io stdout_open args w = (printf args w, None).
Proof. unfold printf_io. by rewrite write_all_open. Qed.

Lemma loop_try_io_open waited w p :
  loop_try_io stdout_open self waited w p = loop_try self waited w p.
Proof.
  unfold loop_try_io, loop_try.
  destruct (q_get waited w) as [[it|] w']; last done.
  destruct it as [k t|[]|n|x|s|r]; done.
Qed.

Lemma report_io_open e w : report_io stdout_open e w = (report e w, None).
Proof. unfold report_io, report. by rewrite !printf_io_open. Qed.

Lemma loop_iteration_io_open waited s :
  loop_iteration_io stdout_open self waited s = (loop_iteration self waited s, None).
Proof.
  unfold loop_iteration_io, loop_iteration. rewrite loop_try_io_open.
  destruct (loop_try self waited s.1 s.2); first done.
  by rewrite report_io_open.
Qed.

Lemma iterations_io_open waits : ∀ s,
  iterations_io stdout_open self waits s = (iterations self waits s, None).
Proof.
  induction waits as [|x rest IH]; intros s; simpl; first done.
  by rewrite loop_iteration_io_open, IH.
Qed.

(** What a turn whose [try] body raises puts on a standard output that
    takes everything: the four lines of the [except:] clause. *)
Lemma turn_reports waited w p e :
  ending_exn (loop_try self waited w p) = Some e →
  stdout (loop_iteration self waited (w, p)).1
  = (stdout (ending_world (loop_try self waited w p)) ++ diagnostic e)%list.
Proof.
  intros He. unfold loop_iteration; simpl.
  destruct (loop_try self waited w p) as [w' p' | e' w' p']; simpl in *; first done.
  injection He as ->. unfold diagnostic. by rewrite <- !app_assoc.
Qed.

(** Whatever the standard output, an exception that leaves a turn is the
    end of the loop: the turns that would follow are not taken. *)
Lemma iterations_io_raised writes waited more s s' x :
  loop_iteration_io writes self waited s = (s', Some x) →
  iterations_io writes self (waited :: more) s = (s', Some x).
Proof. intros H. simpl. by rewrite H. Qed.

(** The messages that are nothing the loop knows: a string that is not
    ['reload'] is taken off the queue and nothing else happens, anything
    that is neither a tuple, a number nor a string gets a line on standard
    output. *)
Lemma turn_unknown_string waited w p s rest :
  q w = (Str s :: rest)%list →
  s ≠ "reload"%string →
  loop_iteration self waited (w, p) = (received waited rest w, p).
Proof.
  intros Hq Hs. unfold loop_iteration, loop_try, q_get; simpl. rewrite Hq; simpl.
  destruct (String.eqb s "reload") eqn:Heq; last done.
  by apply String.eqb_eq in Heq.
Qed.

Lemma turn_unknown_object waited w p r rest :
  q w = (Object r :: rest)%list →
  stdout (loop_iteration self waited (w, p)).1
  = (stdout w ++
       [[Text "SublimeLinter: "; Text "unknown message sent to daemon:";
         Text " "; Shown (Object r); Text " "]])%list
  ∧ (loop_iteration self waited (w, p)).2 = p
  ∧ last_runs (loop_iteration self waited (w, p)).1 = last_runs w
  ∧ calls (loop_iteration self waited (w, p)).1 = calls w
  ∧ q (loop_iteration self waited (w, p)).1 = rest.
Proof.
  intros Hq. unfold loop_iteration, loop_try, q_get; simpl. by rewrite Hq.
Qed.

End OpenStdout.


(** C9: where the code departs from the claim.  The string ['stop'] is not
    a control string the loop knows, and the turn that receives it prints
    nothing: it only takes the message off the queue.  The value [None],
    which the loop does not know either, gets the line of the [else]
    branch.  Neither turn touches the local [last_runs] or
    [Daemon.last_runs]. *)
Theorem C9_unknown_string_is_dropped_without_a_log :
  let w := set_q [Str "stop"] (plugin_started 0) in
  let w' := set_q [Object "None"] (plugin_started 0) in
  "stop"%string ≠ "reload"%string
  ∧ stdout w = [] ∧ stdout w' = []
  ∧ stdout (loop_iteration queue 0 (w, {[1%Z := 0]})).1 = []
  ∧ stdout (loop_iteration queue 0 (w', {[1%Z := 0]})).1
    = [[Text "SublimeLinter: "; Text "unknown message sent to daemon:";
        Text " "; Shown (Object "None"); Text " "]]
  ∧ q (loop_iteration queue 0 (w, {[1%Z := 0]})).1 = []
  ∧ q (loop_iteration queue 0 (w', {[1%Z := 0]})).1 = []
  ∧ (loop_iteration queue 0 (w, {[1%Z := 0]})).2 = {[1%Z := 0]}
  ∧ (loop_iteration queue 0 (w', {[1%Z := 0]})).2 = {[1%Z := 0]}
  ∧ last_runs (loop_iteration queue 0 (w, {[1%Z := 0]})).1 = ∅
  ∧ last_runs (loop_iteration queue 0 (w', {[1%Z := 0]})).1 = ∅.
Proof.
  cbv zeta. split; first discriminate.
  by vm_compute.
Qed.

(** ** Requests that follow one another *)

Section Requests.

Variable self : nat.

(** The turn that receives a check request. *)
Lemma turn_request waited w p k t rest :
  q w = (Pair k t :: rest)%list →
  ∃ p',
    loop_iteration self waited (w, p) = (received waited rest w, p')
    ∧ (accepted k t w → p' = <[k := t]> p)
    ∧ (∀ k', k' ≠ k → p' !! k' = p !! k').
Proof.
  intros Hq. unfold loop_iteration, loop_try, q_get; simpl. rewrite Hq; simpl.
  destruct (last_runs w !! k) as [last|] eqn:Hlast.
  - destruct (Qlt_le_dec t last) as [Hlt | Hle].
    + exists p. split; first done. split; last done.
      intros Hacc. pose proof (Hacc last Hlast). lra.
    + exists (<[k := t]> p). split; first done. split; first done.
      intros k' Hk'. by rewrite lookup_insert_ne.
  - exists (<[k := t]> p). split; first done. split; first done.
    intros k' Hk'. by rewrite lookup_insert_ne.
Qed.

(** A run of check requests is taken off the queue without a call, a
    printed line or a change to [Daemon.last_runs]. *)
Lemma turns_requests (reqs : list (Z * Q)) : ∀ waits w p rest,
  q w = (map (λ r, Pair r.1 r.2) reqs ++ rest)%list →
  length waits = length reqs →
  q (iterations self waits (w, p)).1 = rest
  ∧ last_runs (iterations self waits (w, p)).1 = last_runs w
  ∧ calls (iterations self waits (w, p)).1 = calls w
  ∧ stdout (iterations self waits (w, p)).1 = stdout w.
Proof.
  induction reqs as [|[k t] reqs IH]; intros [|x waits] w p rest Hq Hlen;
    try discriminate Hlen; simpl in *; first done.
  destruct (turn_request x w p k t _ Hq) as (p' & -> & _).
  destruct (IH waits (received x (map (λ r, Pair r.1 r.2) reqs ++ rest) w) p' rest)
    as (-> & -> & -> & ->); [done | by injection Hlen |].
  done.
Qed.



End Requests.

(** C1, as the code has it.  Of the check requests for one view received
    before a sweep, the one accepted last is the one kept: whatever the
    earlier requests [reqs] were, once [(view_id, ts)] has been received
    and is not stale (which is the case when it carries a greater timestamp
    than an earlier request that was not stale), the local [last_runs] maps
    [view_id] to [ts]; nothing has been called or printed for the requests
    it replaced, and every call the next sweep makes for [view_id] carries
    [ts]. *)
Theorem C1_request_received_last_supersedes self w p reqs view_id ts waits wl wE :
  q w = (map (λ r, Pair r.1 r.2) reqs ++ [Pair view_id ts])%list →
  length waits = length reqs →
  (accepted view_id ts w
   ∨ ∃ t1, (view_id, t1) ∈ reqs ∧ accepted view_id t1 w ∧ t1 < ts) →
  (loop_iteration self wl (iterations self waits (w, p))).2 !! view_id = Some ts
  ∧ calls (loop_iteration self wl (iterations self waits (w, p))).1 = calls w
  ∧ stdout (loop_iteration self wl (iterations self waits (w, p))).1 = stdout w
  ∧ ∃ new,
      calls (loop_iteration self wE
               (loop_iteration self wl (iterations self waits (w, p)))).1
      = (calls w ++ new)%list
      ∧ Forall (λ c, call_view c = view_id → call_timestamp c = ts) new.
Proof.
  intros Hq Hlen Hacc.
  assert (Hacc' : accepted view_id ts w).
  { destruct Hacc as [? | (t1 & _ & Hacc1 & Hlt)]; first done.
    intros last Hlast. pose proof (Hacc1 last Hlast). lra. }
  destruct (turns_requests self reqs waits w p _ Hq Hlen) as (Hq1 & Hl1 & Hc1 & Ho1).
  destruct (iterations self waits (w, p)) as [w1 p1]; simpl in *.
  destruct (turn_request self wl w1 p1 view_id ts [] Hq1) as (p2 & Hturn & Hp2 & _).
  rewrite Hturn; simpl.
  rewrite Hp2 by (unfold accepted; by rewrite Hl1).
  rewrite lookup_insert_eq. split; first done. split; first done. split; first done.
  set (w2 := received wl [] w1). set (p3 := <[view_id := ts]> p1).
  destruct (turn_ending self wE w2 p3) as (_ & _ & _ & ->).
  rewrite turn_of_sweep by done.
  destruct (sweep_calls self (map_to_list p3) (set_clock (clock w2 + wE) w2) p3)
    as (new & Hnew & Hall).
  exists new. simpl in Hnew. rewrite Hc1 in Hnew. split; first done.
  eapply Forall_impl; first exact Hall.
  intros c (Hin & _) Hv; simpl in *.
  apply elem_of_map_to_list in Hin. subst p3.
  rewrite Hv, lookup_insert_eq in Hin. by injection Hin.
Qed.

Lemma C1_request_received_last_supersedes_witness :
  let w := set_q [Pair 1 0; Pair 1 0.05] (plugin_started 0) in
  (loop queue [0.01; 0.05] w).2 !! 1%Z = Some 0.05
  ∧ calls (loop queue [0.01; 0.05] w).1 = [].
Proof.
  intros w.
  destruct (C1_request_received_last_supersedes queue w ∅ [(1%Z, 0)] 1%Z 0.05
              [0.01] 0.05 0.11) as (Hp & Hc & _).
  - reflexivity.
  - reflexivity.
  - right. exists 0. split; first by left. split; last reflexivity.
    intros last Hlast. discriminate Hlast.
  - split; [exact Hp | exact Hc].
Defined.

(** C1 fails when the requests do not arrive in the order of their
    timestamps: with those of timestamps 5 and 3 for view 1 both received
    before the sweep, the callback is called with 3, not with 5. *)
Lemma C1_lower_timestamp_received_last_is_dispatched :
  let w := set_q [Pair 1 5; Pair 1 3] (set_clock 10 (plugin_started 0)) in
  last_runs w = ∅
  ∧ 3 < 5
  ∧ (loop queue [0; 0] w).2 = {[1%Z := 3]}
  ∧ calls (loop queue [0; 0; 0.1] w).1
    = [ {| call_view := 1; call_timestamp := 3; call_at := 10 + 0 + 0 + 0.1 |} ].
Proof. by vm_compute. Qed.




Lemma C4_sweep_dispatches_whole_entry_witness :
  ∃ now,
    last_runs (loop_iteration queue 0.3 (plugin_started 0, {[1%Z := 0]})).1 !! 1%Z
    = Some now
    ∧ (loop_iteration queue 0.3 (plugin_started 0, {[1%Z := 0]})).2 !! 1%Z = None
    ∧ 0 + MIN_DELAY < now.
Proof.
  destruct (C4_sweep_dispatches_whole_entry queue 0.3 (plugin_started 0)
              {[1%Z := 0]} always_returns)
    as (new & _ & _ & Hall & _ & Hlive); [reflexivity | reflexivity |].
  destruct (Hlive eq_refl 1%Z 0) as (c & Hin & Hview); [reflexivity | reflexivity |].
  rewrite Forall_forall in Hall.
  destruct (Hall c Hin) as (now & Hp & Hlast & Hgone & Hdue & _).
  rewrite Hview in Hp, Hlast, Hgone.
  exists now. split; first exact Hlast. split; first exact Hgone.
  rewrite lookup_singleton_eq in Hp. injection Hp as Hp.
  rewrite Hp. exact Hdue.
Defined.

(** ** Attributes read and written through [self] *)

Section Attributes.

Variable self : nat.

Lemma get_running_set_callback cb w :
  get_running self (set_callback self cb w) = get_running self w.
Proof. unfold get_running, dict_of; simpl. by rewrite lookup_insert_eq. Qed.

Lemma get_callback_set_callback cb w :
  get_callback self (set_callback self cb w) = cb.
Proof. unfold get_callback, dict_of; simpl. by rewrite lookup_insert_eq. Qed.

Lemma get_running_set_running b w :
  get_running self (set_running self b w) = b.
Proof. unfold get_running, dict_of; simpl. by rewrite lookup_insert_eq. Qed.

Lemma get_callback_set_running b w :
  get_callback self (set_running self b w) = get_callback self w.
Proof. unfold get_callback, dict_of; simpl. by rewrite lookup_insert_eq. Qed.

Lemma dict_of_set_callback_ne other cb w :
  other ≠ self → dict_of other (set_callback self cb w) = dict_of other w.
Proof. intros Hne. unfold dict_of; simpl. by rewrite lookup_insert_ne. Qed.

Lemma dict_of_set_running_ne other b w :
  other ≠ self → dict_of other (set_running self b w) = dict_of other w.
Proof. intros Hne. unfold dict_of; simpl. by rewrite lookup_insert_ne. Qed.

(** [start], case by case. *)
Lemma start_running cb w :
  get_running self w = true →
  start self cb w = q_put (Str "reload") (set_callback self cb w).
Proof. intros Hr. unfold start. by rewrite get_running_set_callback, Hr. Qed.

Lemma start_not_running cb w :
  get_running self w = false →
  start self cb w
  = thread_start self (set_running self true (set_callback self cb w)).
Proof. intros Hr. unfold start. by rewrite get_running_set_callback, Hr. Qed.

Lemma get_running_start cb w : get_running self (start self cb w) = true.
Proof.
  destruct (get_running self w) eqn:Hr.
  - rewrite start_running by done.
    change (get_running self (q_put _ ?w')) with (get_running self w').
    by rewrite get_running_set_callback.
  - rewrite start_not_running by done.
    change (get_running self (thread_start _ ?w')) with (get_running self w').
    by rewrite get_running_set_running.
Qed.

Lemma get_callback_start cb w : get_callback self (start self cb w) = cb.
Proof.
  destruct (get_running self w) eqn:Hr.
  - rewrite start_running by done.
    change (get_callback self (q_put _ ?w')) with (get_callback self w').
    by rewrite get_callback_set_callback.
  - rewrite start_not_running by done.
    change (get_callback self (thread_start _ ?w')) with (get_callback self w').
    by rewrite get_callback_set_running, get_callback_set_callback.
Qed.

Lemma dict_of_start_ne other cb w :
  other ≠ self → dict_of other (start self cb w) = dict_of other w.
Proof.
  intros Hne. destruct (get_running self w) eqn:Hr.
  - rewrite start_running by done.
    change (dict_of other (q_put _ ?w')) with (dict_of other w').
    by rewrite dict_of_set_callback_ne.
  - rewrite start_not_running by done.
    change (dict_of other (thread_start _ ?w')) with (dict_of other w').
    by rewrite dict_of_set_running_ne, dict_of_set_callback_ne.
Qed.

End Attributes.

(** Starting an object that is running changes neither the threads nor
    the fact that it is running. *)
Lemma restarts_keep_threads self (cbs : list (option callback_fn)) : ∀ w,
  get_running self w = true →
  threads (foldl (λ w cb, start self cb w) w cbs) = threads w
  ∧ get_running self (foldl (λ w cb, start self cb w) w cbs) = true.
Proof.
  induction cbs as [|cb cbs IH]; intros w Hr; simpl; first done.
  destruct (IH (start self cb w)) as (-> & ->); first apply get_running_start.
  by rewrite start_running.
Qed.

(** ** More than one Daemon object *)

(** The loop looks at [self] for the callback only. *)
Lemma sweep_same_callback self other items : ∀ w p,
  get_callback self w = get_callback other w →
  sweep self items w p = sweep other items w p.
Proof.
  induction items as [|[k t] rest IH]; intros w p Hcb; simpl; first done.
  destruct (Qlt_le_dec _ _); last by apply IH.
  destruct (p !! k); last done.
  unfold reenter; simpl.
  change (get_callback self (set_last_runs ?m w)) with (get_callback self w).
  change (get_callback other (set_last_runs ?m w)) with (get_callback other w).
  rewrite <- Hcb. destruct (get_callback self w) as [f|] eqn:Hself; last done.
  destruct (f k t); last done.
  apply IH. change (get_callback self w = get_callback other w).
  by rewrite Hself.
Qed.

Lemma construct_is_new w :
  objects w !! (construct w).1 = None
  ∧ dict_of (construct w).1 (construct w).2 = new_instance.
Proof.
  split.
  - apply not_elem_of_dom. apply is_fresh.
  - unfold dict_of, construct; simpl. by rewrite lookup_insert_eq.
Qed.

(** C10, as the code has it.  The queue and [last_runs] belong to the
    class: [hit] and [delay] put the same message on the same queue
    whichever object they are called on, constructing another Daemon
    leaves the queue and the table as they are, and the loops of two
    objects with the same callback are one and the same function of the
    process.  [running] and [callback], once assigned through [self] by
    [start], belong to the object: starting one object changes neither for
    another, a newly constructed Daemon is not running and has no callback
    whatever the others did, and starting it starts a thread of its own. *)
Theorem C10_queue_shared_running_and_callback_per_object
    self other w view_id milliseconds cb waited s :
  hit self view_id w = hit other view_id w
  ∧ delay self milliseconds w = delay other milliseconds w
  ∧ (q (construct w).2 = q w ∧ last_runs (construct w).2 = last_runs w)
  ∧ (get_callback self s.1 = get_callback other s.1 →
     loop_iteration self waited s = loop_iteration other waited s)
  ∧ (other ≠ self →
     get_running other (start self cb w) = get_running other w
     ∧ get_callback other (start self cb w) = get_callback other w)
  ∧ (get_running (construct w).1 (construct w).2 = false
     ∧ get_callback (construct w).1 (construct w).2 = None)
  ∧ threads (start (construct w).1 cb (construct w).2)
    = (threads w ++ [(construct w).1])%list.
Proof.
  split; first reflexivity. split; first reflexivity.
  split; first (split; reflexivity).
  split; last split; last split.
  - intros Hcb. destruct s as [w0 p]; simpl in *.
    unfold loop_iteration, loop_try; simpl.
    destruct (q_get waited w0) as [[it|] w1] eqn:Hget; first done.
    rewrite (sweep_same_callback self other); first done.
    unfold q_get in Hget. destruct (q w0); last done.
    injection Hget as <-. exact Hcb.
  - intros Hne. unfold get_running, get_callback.
    by rewrite dict_of_start_ne.
  - unfold get_running, get_callback.
    by destruct (construct_is_new w) as (_ & ->).
  - rewrite start_not_running; first done.
    unfold get_running. by destruct (construct_is_new w) as (_ & ->).
Qed.

Lemma C10_queue_shared_running_and_callback_per_object_witness :
  get_running 1%nat (start queue (Some always_returns) (module_loaded 0)) = false
  ∧ get_callback 1%nat (start queue (Some always_returns) (module_loaded 0)) = None.
Proof.
  destruct (C10_queue_shared_running_and_callback_per_object queue 1%nat
              (module_loaded 0) 0%Z 0 (Some always_returns) 0 (module_loaded 0, ∅))
    as (_ & _ & _ & _ & Hother & _).
  destruct Hother as (Hr & Hc); first discriminate.
  split; [rewrite Hr | rewrite Hc]; reflexivity.
Defined.

(** C10 fails for [running] and [callback]: with the daemon of the plugin
    running, a second Daemon object is not running, and starting it starts
    a second consumer thread instead of putting ['reload'] on the queue. *)
Lemma C10_second_daemon_starts_second_thread :
  let second := construct (plugin_started 0) in
  second.1 ≠ queue
  ∧ get_running queue second.2 = true
  ∧ get_running second.1 second.2 = false
  ∧ threads second.2 = [queue]
  ∧ threads (start second.1 (Some always_returns) second.2) = [queue; second.1]
  ∧ q (start second.1 (Some always_returns) second.2) = [].
Proof. by vm_compute. Qed.

(** ** Further facts and worked scenarios *)

(** The messages whose processing raises: tuples that do not unpack into
    two names, and negative sleep lengths. *)
Lemma message_raises self waited w p it rest :
  q w = (it :: rest)%list →
  is_Some (ending_exn (loop_try self waited w p))
  ↔ match it with
    | Tuple01 _ | TupleLong _ => True
    | Number x => x < 0
    | _ => False
    end.
Proof.
  intros Hq. unfold loop_try, q_get, time_sleep; simpl. rewrite Hq; simpl.
  destruct it as [k t|[]|n|x|s|r]; simpl;
    repeat match goal with
    | |- context [last_runs w !! ?k] => destruct (last_runs w !! k); simpl
    | |- context [Qlt_le_dec ?a ?b] => destruct (Qlt_le_dec a b); simpl
    | |- context [String.eqb ?a ?b] => destruct (String.eqb a b); simpl
    end;
    split; intros H; try done; try (by destruct H); try lra.
Qed.

(** A callback that raises ends the sweep: of two entries that are due,
    one is dispatched and the other stays pending, and the exception is
    reported. *)
Example raising_callback_ends_the_sweep :
  let w := set_clock 10 (start queue (Some always_raises) (module_loaded 0)) in
  let s := loop_iteration queue 0.1 (w, {[1%Z := 0; 2%Z := 0]}) in
  length (calls s.1) = 1%nat
  ∧ size s.2 = 1%nat
  ∧ stdout s.1 = diagnostic (CallbackError "lint failed").
Proof. by vm_compute. Qed.

(** Two hits for one view within [MIN_DELAY]: one call, with the second
    timestamp. *)
Example two_hits_for_one_view :
  let w := set_q [Pair 1 0; Pair 1 0.05] (plugin_started 0) in
  calls (loop queue [0.01; 0.05; 0.1] w).1
  = [ {| call_view := 1; call_timestamp := 0.05; call_at := 0 + 0.01 + 0.05 + 0.1 |} ]
  ∧ calls (loop queue [0.01; 0.05; 0.1; 0.1; 0.1] w).1
    = calls (loop queue [0.01; 0.05; 0.1] w).1.
Proof. by vm_compute. Qed.

(** Hits for two views: both are dispatched by the same sweep. *)
Example hits_for_two_views :
  let w := set_q [Pair 1 0; Pair 2 0] (plugin_started 0) in
  let s := loop queue [0.01; 0; 0.1] w in
  length (calls s.1) = 2%nat
  ∧ {| call_view := 1; call_timestamp := 0; call_at := 0 + 0.01 + 0 + 0.1 |} ∈ calls s.1
  ∧ {| call_view := 2; call_timestamp := 0; call_at := 0 + 0.01 + 0 + 0.1 |} ∈ calls s.1
  ∧ s.2 = ∅.
Proof.
  vm_compute. split; first done.
  split; last split; last done; repeat constructor.
Qed.

(** Foreign messages are logged or reported, and the hit that follows
    them is dispatched as usual. *)
Example hit_after_foreign_messages :
  let w := set_q [Object "None"; TupleLong 0; Number (-1); Pair 1 0]
             (plugin_started 0) in
  let s := loop queue [0.01; 0; 0; 0; 0.1] w in
  calls s.1
  = [ {| call_view := 1; call_timestamp := 0; call_at := 0 + 0.01 + 0 + 0 + 0 + 0.1 |} ]
  ∧ length (stdout s.1) = 9%nat.
Proof. by vm_compute. Qed.

(** What [start] puts on the queue of a running daemon makes the loop
    print its reload line. *)
Example reload_is_detected :
  let w := start queue (Some always_returns) (plugin_started 0) in
  q w = [Str "reload"]
  ∧ stdout (loop queue [0] w).1
    = [[Text "SublimeLinter: "; Text "daemon detected a reload"; Text " "]].
Proof. by vm_compute. Qed.

(** * Further properties of the daemon *)

(** ** Calls for one view are spaced *)



Section Debounce.

Variable self : nat.










End Debounce.



(** ** Where calls come from *)

Section Provenance.

Variable self : nat.

(** A sweep only deletes from the local [last_runs]. *)
Lemma sweep_local_sub items : ∀ w p k t,
  ending_local (sweep self items w p) !! k = Some t → p !! k = Some t.
Proof.
  induction items as [|[k' t'] rest IH]; intros w p k t; simpl; first done.
  destruct (Qlt_le_dec _ _); last by apply IH.
  destruct (p !! k') eqn:Hp; first last; first done.
  unfold reenter; simpl.
  change (get_callback self (set_last_runs _ w)) with (get_callback self w).
  assert (Hdel : delete k' p !! k = Some t → p !! k = Some t).
  { intros Hd. destruct (decide (k = k')) as [-> | Hne].
    - by rewrite lookup_delete_eq in Hd.
    - by rewrite lookup_delete_ne in Hd. }
  destruct (get_callback self w) as [f|]; simpl; last done.
  destruct (f k' t'); simpl; last done.
  intros H. apply Hdel. by eapply IH.
Qed.

(** What a turn can add: a call for an entry that was pending, a pending
    entry for the request it received. *)
Lemma turn_provenance waited w p :
  (∀ c, c ∈ calls (loop_iteration self waited (w, p)).1 →
        c ∈ calls w ∨ p !! call_view c = Some (call_timestamp c))
  ∧ (∀ k t, (loop_iteration self waited (w, p)).2 !! k = Some t →
            p !! k = Some t ∨ Pair k t ∈ q w)
  ∧ (∀ it, it ∈ q (loop_iteration self waited (w, p)).1 → it ∈ q w).
Proof.
  split; last split.
  - intros c Hc.
    destruct (q w) as [|it l] eqn:Hq.
    + destruct (turn_ending self waited w p) as (_ & _ & _ & Heq).
      rewrite Heq, turn_of_sweep in Hc by done.
      destruct (sweep_calls self (map_to_list p) (set_clock (clock w + waited) w) p)
        as (new & Hnew & Hall).
      rewrite Hnew in Hc. apply elem_of_app in Hc as [Hc | Hc]; first by left.
      right. rewrite Forall_forall in Hall.
      destruct (Hall c Hc) as (Hin & _). by apply elem_of_map_to_list in Hin.
    + left. destruct (turn_calls self waited (w, p)) as (new & Hnew & Hnone & _).
      simpl in *. rewrite Hnew, Hnone in Hc by by rewrite Hq.
      by rewrite app_nil_r in Hc.
  - intros k t.
    destruct (q w) as [|it l] eqn:Hq.
    + destruct (turn_ending self waited w p) as (-> & _).
      rewrite turn_of_sweep by done. intros H. left. by eapply sweep_local_sub.
    + message_turn w it Hq; intros H; try (by left).
      all: destruct (decide (k = k0)) as [-> | Hne];
        [ rewrite lookup_insert_eq in H; injection H as ->; right; by left
        | rewrite lookup_insert_ne in H by done; by left ].
  - intros it. rewrite turn_q. simpl. destruct (q w); first done.
    simpl. intros H. by right.
Qed.

End Provenance.

(** X3.  The loop never makes a call up: whatever the interleaving of
    turns and puts, every call was already made before, or is for an entry
    that was pending at the start, or carries the view and the timestamp of
    a check request that was in the queue or has been put on it. *)
Theorem every_call_answers_a_request self acts : ∀ w p c,
  c ∈ calls (run self acts (w, p)).1 →
  c ∈ calls w
  ∨ p !! call_view c = Some (call_timestamp c)
  ∨ Pair (call_view c) (call_timestamp c) ∈ q w
  ∨ Put (Pair (call_view c) (call_timestamp c)) ∈ acts.
Proof.
  induction acts as [|[x | it] rest IH]; intros w p c Hc; simpl in Hc.
  - by left.
  - destruct (turn_provenance self x w p) as (Hcalls & Hlocal & Hq).
    destruct (loop_iteration self x (w, p)) as [w' p']; simpl in *.
    destruct (IH w' p' c Hc) as [H | [H | [H | H]]].
    + destruct (Hcalls c H) as [? | ?]; [by left | right; by left].
    + destruct (Hlocal _ _ H) as [? | ?]; right; [by left | right; by left].
    + right. right. left. by apply Hq.
    + right. right. right. by right.
  - destruct (IH (q_put it w) p c Hc) as [H | [H | [H | H]]].
    + by left.
    + right. by left.
    + simpl in H. apply elem_of_app in H as [H | H].
      * right. right. by left.
      * apply list_elem_of_singleton in H as <-. right. right. right. by left.
    + right. right. right. by right.
Qed.

Lemma every_call_answers_a_request_witness :
  Put (Pair 1 0) ∈ [Put (Pair 1 0); Turn 0.01; Turn 0.1].
Proof.
  destruct (every_call_answers_a_request queue
              [Put (Pair 1 0); Turn 0.01; Turn 0.1] (plugin_started 0) ∅
              {| call_view := 1; call_timestamp := 0; call_at := 0 + 0.01 + 0.1 |})
    as [H | [H | [H | H]]].
  - vm_compute. left.
  - vm_compute in H. by apply elem_of_nil in H.
  - vm_compute in H. discriminate H.
  - vm_compute in H. by apply elem_of_nil in H.
  - exact H.
Defined.

Lemma sweep_keeps_last_runs self items : ∀ w p k last,
  last_runs w !! k = Some last →
  is_Some (last_runs (ending_world (sweep self items w p)) !! k).
Proof.
  induction items as [|[k' t'] items IH]; intros w p k last Hlast; simpl;
    first by exists last.
  destruct (Qlt_le_dec _ _); last by eapply IH.
  assert (Hset : is_Some (<[k' := time_monotonic w]> (last_runs w) !! k)).
  { destruct (decide (k = k')) as [-> | Hne].
    - rewrite lookup_insert_eq. by eexists.
    - rewrite lookup_insert_ne by done. by exists last. }
  destruct Hset as (last' & Hlast').
  destruct (p !! k'); simpl; last by exists last'.
  unfold reenter; simpl.
  change (get_callback self (set_last_runs _ w)) with (get_callback self w).
  destruct (get_callback self w) as [f|]; simpl; last by exists last'.
  destruct (f k' t'); simpl; last by exists last'.
  by eapply IH.
Qed.

(** X4.  [Daemon.last_runs] only grows: a view that has an entry keeps one,
    whatever the loop goes through. *)
Theorem last_runs_entry_is_never_removed self acts : ∀ w p view_id last,
  last_runs w !! view_id = Some last →
  is_Some (last_runs (run self acts (w, p)).1 !! view_id).
Proof.
  induction acts as [|[x | it] rest IH]; intros w p v last Hlast; simpl.
  - by exists last.
  - assert (Hturn : is_Some (last_runs (loop_iteration self x (w, p)).1 !! v)).
    { destruct (q w) as [|it l] eqn:Hq.
      - destruct (turn_ending self x w p) as (_ & _ & -> & _).
        rewrite turn_of_sweep by done. by eapply sweep_keeps_last_runs.
      - rewrite (turn_message_last_runs self x (w, p)); last by (simpl; rewrite Hq).
        by exists last. }
    destruct Hturn as (last' & Hlast').
    destruct (loop_iteration self x (w, p)) as [w' p']. by eapply IH.
  - by eapply (IH (q_put it w)).
Qed.

Lemma last_runs_entry_is_never_removed_witness :
  is_Some (last_runs
             (run queue [Put (Pair 1 9); Turn 0; Turn 0.2; Put (Number 1); Turn 0]
                (set_last_runs {[1%Z := 5]} (plugin_started 9), ∅)).1 !! 1%Z).
Proof.
  apply (last_runs_entry_is_never_removed queue _ _ ∅ 1%Z 5). reflexivity.
Defined.

(** ** From the entry points to the loop *)

(** X5.  What [hit] returns is what the callback gets.  [hit] stamps its
    request with the current clock reading and returns the stamp.  On a
    queue that was idle, once the loop has received the request (for a view
    whose table entry is not in the future) the local [last_runs] holds the
    stamp for the view and nothing has been called.  Every call the sweep
    after that makes for the view has the stamp as its second argument and
    is made more than [MIN_DELAY] after the hit; the sweep either
    dispatches the request as a whole or leaves it pending as it is, and
    it dispatches it when no exception cuts it short and the two waits
    make up more than twice [MIN_DELAY]. *)
Theorem hit_timestamp_is_what_the_callback_gets self w p view_id wA wE f :
  q w = [] →
  get_callback self w = Some f →
  accepted view_id (clock w) w →
  let stamp := (hit self view_id w).1 in
  let s1 := loop_iteration self wA ((hit self view_id w).2, p) in
  let s2 := loop_iteration self wE s1 in
  stamp = clock w
  ∧ s1.2 !! view_id = Some stamp
  ∧ calls s1.1 = calls w
  ∧ ∃ new,
      calls s2.1 = (calls w ++ new)%list
      ∧ Forall (λ c, call_view c = view_id →
                     call_timestamp c = stamp ∧ stamp + MIN_DELAY < call_at c) new
      ∧ ((∃ c now,
            c ∈ new ∧ call_view c = view_id
            ∧ last_runs s2.1 !! view_id = Some now
            ∧ s2.2 !! view_id = None
            ∧ stamp + MIN_DELAY < now
            ∧ now <= call_at c)
         ∨ untouched view_id stamp s1 s2 new)
      ∧ (ending_exn (loop_try self wE s1.1 s1.2) = None →
         2 * MIN_DELAY < wA + wE →
         ∃ c, c ∈ new ∧ call_view c = view_id).
Proof.
  intros Hq Hcb Hacc. cbv zeta. split; first done.
  unfold hit, time_monotonic; simpl.
  set (w0 := q_put (Pair view_id (clock w)) w).
  assert (Hq0 : q w0 = [Pair view_id (clock w)]) by (simpl; by rewrite Hq).
  destruct (turn_request self wA w0 p view_id (clock w) [] Hq0) as (p1 & -> & Hp1 & _).
  rewrite Hp1 by exact Hacc. clear Hp1 p1. simpl fst. simpl snd.
  rewrite lookup_insert_eq. split; first done. split; first done.
  set (w1 := received wA [] w0). set (p2 := <[view_id := clock w]> p).
  assert (Hp2 : p2 !! view_id = Some (clock w)) by (subst p2; by rewrite lookup_insert_eq).
  destruct (turn_sweeps self wE w1 p2 f) as (new & Hnew & _ & _ & Hall & Hviews);
    [done | exact Hcb |].
  exists new. split; first done.
  rewrite Forall_forall in Hall. split; last split.
  - apply Forall_forall. intros c Hin Hview.
    destruct (Hall c Hin) as (Hitem & Hdue & Hat & _).
    rewrite Hview, Hp2 in Hitem. injection Hitem as Hitem.
    rewrite <- Hitem in Hdue. rewrite <- Hitem, Hat. split; [done | exact Hdue].
  - destruct (Hviews view_id) as [(c & Hin & Hview) | (Hl & Hkept & Hnone & _)].
    + left. exists c, (clock w1 + wE).
      destruct (Hall c Hin) as (Hitem & Hdue & Hat & Hlast & Hgone).
      rewrite Hview in Hitem, Hlast, Hgone. rewrite Hp2 in Hitem.
      injection Hitem as Hitem. rewrite <- Hitem in Hdue. rewrite Hat.
      repeat split; try done; lra.
    + right. unfold untouched. by rewrite Hkept, Hp2.
  - intros Hnormal Hold.
    destruct (Hviews view_id) as [? | (_ & _ & _ & Hwhy)]; first done.
    pose proof MIN_DELAY_pos as Hpos.
    destruct (Hwhy (clock w) Hp2) as [Hyoung | Hexn].
    + simpl in Hyoung. lra.
    + rewrite Hnormal in Hexn. by destruct Hexn.
Qed.

Lemma hit_timestamp_is_what_the_callback_gets_witness :
  (hit queue 7 (plugin_started 3)).1 = 3
  ∧ (iterations queue [0.01] ((hit queue 7 (plugin_started 3)).2, ∅)).2 !! 7%Z
    = Some 3
  ∧ (iterations queue [0.01; 0.2] ((hit queue 7 (plugin_started 3)).2, ∅)).2 !! 7%Z
    = None.
Proof.
  destruct (hit_timestamp_is_what_the_callback_gets queue (plugin_started 3) ∅
              7%Z 0.01 0.2 always_returns)
    as (Hstamp & Hpending & _ & new & _ & _ & Hcases & Hlive).
  - reflexivity.
  - reflexivity.
  - intros last Hlast. discriminate Hlast.
  - split; first exact Hstamp. split; first exact Hpending.
    destruct Hcases as [(c & now & _ & _ & _ & Hgone & _) | (_ & _ & Hnone)].
    + exact Hgone.
    + destruct Hlive as (c & Hin & Hview); [reflexivity | reflexivity |].
      rewrite Forall_forall in Hnone. destruct (Hnone c Hin Hview).
Defined.

(** X7.  Starting a daemon that is running, seen from the loop: with the
    queue idle, the turn that follows receives ['reload'] and prints the
    reload line; the pending requests, [Daemon.last_runs], the calls made
    and the threads are as they were, the queue is empty again and the
    clock has moved on by the wait in [q.get].  The callback of the object
    is the new one from then on. *)
Theorem restart_is_detected_and_keeps_pending_requests self cb waited w p :
  get_running self w = true →
  q w = [] →
  let after := loop_iteration self waited (start self cb w, p) in
  stdout after.1
  = (stdout w ++
       [[Text "SublimeLinter: "; Text "daemon detected a reload"; Text " "]])%list
  ∧ after.2 = p
  ∧ last_runs after.1 = last_runs w
  ∧ calls after.1 = calls w
  ∧ threads after.1 = threads w
  ∧ q after.1 = []
  ∧ clock w + waited <= clock after.1
  ∧ get_callback self after.1 = cb
  ∧ get_running self after.1 = true.
Proof.
  intros Hr Hq. cbv zeta. rewrite start_running by done.
  assert (Hturn : loop_iteration self waited
                    (q_put (Str "reload") (set_callback self cb w), p)
                  = (printf [Text "daemon detected a reload"]
                       (received waited [] (set_callback self cb w)), p)).
  { unfold loop_iteration, loop_try, q_get; simpl. by rewrite Hq. }
  rewrite Hturn. simpl.
  do 6 (split; first done). split; first lra. split.
  - apply get_callback_set_callback.
  - change (get_running self (set_callback self cb w) = true).
    by rewrite get_running_set_callback.
Qed.

Lemma restart_is_detected_and_keeps_pending_requests_witness :
  stdout (loop_iteration queue 0
            (start queue (Some always_raises) (plugin_started 0), {[1%Z := 0]})).1
  = [[Text "SublimeLinter: "; Text "daemon detected a reload"; Text " "]]
  ∧ (loop_iteration queue 0
       (start queue (Some always_raises) (plugin_started 0), {[1%Z := 0]})).2
    = {[1%Z := 0]}.
Proof.
  destruct (restart_is_detected_and_keeps_pending_requests queue
              (Some always_raises) 0 (plugin_started 0) {[1%Z := 0]})
    as (Hout & Hpending & _); [reflexivity | reflexivity |].
  split; [exact Hout | exact Hpending].
Defined.

(** ** Threads *)

Lemma one_thread_each_same w w' :
  objects w' = objects w → threads w' = threads w →
  one_thread_each w → one_thread_each w'.
Proof.
  intros Ho Ht (Hnd & Hrun). unfold one_thread_each, get_running, dict_of in *.
  rewrite Ho, Ht. done.
Qed.

Lemma get_running_start_ne self other cb w :
  other ≠ self → get_running other (start self cb w) = get_running other w.
Proof. intros Hne. unfold get_running. by rewrite dict_of_start_ne. Qed.

Lemma one_thread_each_module_loaded t : one_thread_each (module_loaded t).
Proof.
  split; first apply NoDup_nil_2.
  intros o. split; first by intros ?%elem_of_nil.
  unfold get_running, dict_of, module_loaded, construct; simpl.
  destruct (decide (o = fresh (dom (∅ : gmap nat instance)))) as [-> | Hne].
  - by rewrite lookup_insert_eq.
  - rewrite lookup_insert_ne by done. by rewrite lookup_empty.
Qed.

(** [start] keeps the threads one per running object. *)
Lemma start_one_thread_each self cb w :
  one_thread_each w → one_thread_each (start self cb w).
Proof.
  intros (Hnd & Hrun).
  destruct (get_running self w) eqn:Hr.
  - split.
    + by rewrite start_running.
    + intros o. rewrite start_running at 1 by done. simpl.
      destruct (decide (o = self)) as [-> | Hne].
      * rewrite get_running_start. by rewrite Hrun.
      * rewrite get_running_start_ne by done. apply Hrun.
  - assert (Hnew : self ∉ threads w).
    { intros Hin. apply Hrun in Hin. congruence. }
    split.
    + rewrite start_not_running by done. simpl.
      apply NoDup_app. split; first done. split; last apply NoDup_singleton.
      intros o Ho Hs. apply list_elem_of_singleton in Hs as ->. done.
    + intros o. rewrite start_not_running at 1 by done. simpl.
      rewrite elem_of_app, list_elem_of_singleton.
      destruct (decide (o = self)) as [-> | Hne].
      * rewrite get_running_start. split; [done | by right].
      * rewrite get_running_start_ne by done. rewrite <- Hrun.
        split; [by intros [? | ?] | by left].
Qed.

(** The threads after [start]: those there were, and one for [self] if it
    had none. *)
Lemma start_threads self cb w o :
  one_thread_each w →
  o ∈ threads (start self cb w) ↔ o ∈ threads w ∨ o = self.
Proof.
  intros (Hnd & Hrun).
  destruct (get_running self w) eqn:Hr.
  - rewrite start_running by done. simpl. split; first by left.
    intros [? | ->]; first done. by apply Hrun.
  - rewrite start_not_running by done. simpl.
    by rewrite elem_of_app, list_elem_of_singleton.
Qed.

(** Any number of [start] calls, on whatever objects. *)
Lemma starts_one_thread_each (starts : list (nat * option callback_fn)) : ∀ w,
  one_thread_each w →
  one_thread_each (foldl (λ w sc, start sc.1 sc.2 w) w starts)
  ∧ ∀ o, o ∈ threads (foldl (λ w sc, start sc.1 sc.2 w) w starts)
         ↔ o ∈ threads w ∨ o ∈ starts.*1.
Proof.
  induction starts as [|[self cb] starts IH]; intros w Hinv; simpl.
  { split; first done. intros o. split; first by left.
    intros [? | ?%elem_of_nil]; done. }
  destruct (IH (start self cb w) (start_one_thread_each self cb w Hinv))
    as (Hinv' & Hthreads).
  split; first done.
  intros o. rewrite Hthreads, start_threads, elem_of_cons by done. tauto.
Qed.

(** C7, as the code has it.  [start] registers its argument as the callback
    of [self].  On an object that is not running it sets [self.running],
    starts one thread on [self.loop] and puts nothing on the queue; on one
    that is running it starts no thread and puts ['reload'] on the queue.
    Hence, whatever objects are started and however often, no object ever
    has two consumer threads: the threads are those there were and one for
    each object started that had none.  As long as the plugin starts its
    daemon [queue] only, the process has one consumer thread, started by
    the first call. *)
Theorem C7_start_registers_and_starts_one_thread self cb w :
  one_thread_each w →
  get_callback self (start self cb w) = cb
  ∧ get_running self (start self cb w) = true
  ∧ (if get_running self w
     then threads (start self cb w) = threads w
          ∧ q (start self cb w) = (q w ++ [Str "reload"])%list
     else threads (start self cb w) = (threads w ++ [self])%list
          ∧ q (start self cb w) = q w)
  ∧ (∀ starts : list (nat * option callback_fn),
       NoDup (threads (foldl (λ w sc, start sc.1 sc.2 w) w starts))
       ∧ ∀ o, o ∈ threads (foldl (λ w sc, start sc.1 sc.2 w) w starts)
              ↔ o ∈ threads w ∨ o ∈ starts.*1)
  ∧ ∀ t cb0 cbs,
      threads (foldl (λ w cb, start queue cb w) (module_loaded t) (cb0 :: cbs))
      = [queue].
Proof.
  intros Hinv.
  split; first apply get_callback_start.
  split; first apply get_running_start.
  split; last split.
  - destruct (get_running self w) eqn:Hr.
    + by rewrite start_running.
    + by rewrite start_not_running.
  - intros starts.
    destruct (starts_one_thread_each starts w Hinv) as ((Hnd & _) & Hthreads).
    done.
  - intros t cb0 cbs. simpl.
    destruct (restarts_keep_threads queue cbs (start queue cb0 (module_loaded t)))
      as (-> & _); first apply get_running_start.
    by rewrite start_not_running.
Qed.

Lemma C7_start_registers_and_starts_one_thread_witness :
  threads (start queue (Some always_returns) (module_loaded 0)) = [queue]
  ∧ q (start queue (Some always_returns) (module_loaded 0)) = []
  ∧ get_running queue (start queue (Some always_returns) (module_loaded 0)) = true.
Proof.
  destruct (C7_start_registers_and_starts_one_thread queue (Some always_returns)
              (module_loaded 0) (one_thread_each_module_loaded 0))
    as (_ & Hrun & Hcase & _).
  change (get_running queue (module_loaded 0)) with false in Hcase.
  destruct Hcase as (Hthreads & Hq).
  split; first exact Hthreads. split; [exact Hq | exact Hrun].
Defined.

(** C7 fails for the process: with the daemon of the plugin running, a
    second Daemon object that is started gets a consumer thread of its
    own, and from then on the process has two; starting either again puts
    ['reload'] on the queue they share. *)
Lemma C7_two_daemons_two_consumer_threads :
  let w := plugin_started 0 in
  let second := (construct w).1 in
  let w' := start second (Some always_returns) (construct w).2 in
  threads w = [queue]
  ∧ second ≠ queue
  ∧ threads w' = [queue; second]
  ∧ q w' = []
  ∧ threads (start queue None (start second None w')) = [queue; second]
  ∧ q (start queue None (start second None w')) = [Str "reload"; Str "reload"].
Proof. by vm_compute. Qed.

(** X8.  However many Daemon objects there are and whichever of them are
    started, in whatever order, no object ever has two threads on its loop:
    if the threads started so far are one per running object, they still
    are after [start] on any object, after constructing another Daemon,
    after [hit], after [delay] and after a turn of any loop. *)
Theorem no_object_gets_two_threads w self cb view_id milliseconds waited p :
  one_thread_each w →
  one_thread_each (start self cb w)
  ∧ one_thread_each (construct w).2
  ∧ one_thread_each (hit self view_id w).2
  ∧ one_thread_each (delay self milliseconds w)
  ∧ one_thread_each (loop_iteration self waited (w, p)).1.
Proof.
  intros Hinv. split; last split; last split; last split.
  - destruct Hinv as (Hnd & Hrun).
    destruct (get_running self w) eqn:Hr.
    + split.
      * by rewrite start_running.
      * intros o. rewrite start_running at 1 by done. simpl.
        destruct (decide (o = self)) as [-> | Hne].
        -- rewrite get_running_start. by rewrite Hrun.
        -- rewrite get_running_start_ne by done. apply Hrun.
    + assert (Hnew : self ∉ threads w).
      { intros Hin. apply Hrun in Hin. congruence. }
      split.
      * rewrite start_not_running by done. simpl.
        apply NoDup_app. split; first done. split; last apply NoDup_singleton.
        intros o Ho Hs. apply list_elem_of_singleton in Hs as ->. done.
      * intros o. rewrite start_not_running at 1 by done. simpl.
        rewrite elem_of_app, list_elem_of_singleton.
        destruct (decide (o = self)) as [-> | Hne].
        -- rewrite get_running_start. split; [done | by right].
        -- rewrite get_running_start_ne by done. rewrite <- Hrun.
           split; [by intros [? | ?] | by left].
  - destruct Hinv as (Hnd & Hrun).
    destruct (construct_is_new w) as (Hfresh & Hdict).
    split; first done.
    intros o. change (threads (construct w).2) with (threads w). rewrite Hrun.
    destruct (decide (o = (construct w).1)) as [-> | Hne].
    + assert (Hold : get_running (construct w).1 w = false).
      { unfold get_running, dict_of. by rewrite Hfresh. }
      assert (Hnew : get_running (construct w).1 (construct w).2 = false).
      { unfold get_running. by rewrite Hdict. }
      by rewrite Hold, Hnew.
    + assert (Heq : get_running o (construct w).2 = get_running o w).
      { unfold get_running, dict_of, construct; simpl.
        rewrite lookup_insert_ne; first done. intros Heq. apply Hne. by rewrite <- Heq. }
      by rewrite Heq.
  - by eapply one_thread_each_same; last exact Hinv.
  - by eapply one_thread_each_same; last exact Hinv.
  - destruct (turn_objects self waited (w, p)) as (Ho & Ht).
    by eapply one_thread_each_same; last exact Hinv.
Qed.

Lemma no_object_gets_two_threads_witness :
  one_thread_each (start 1%nat None (plugin_started 0)).
Proof.
  assert (H0 : one_thread_each (class_defined 0)).
  { split; first apply NoDup_nil_2.
    intros o. split; [by intros ?%elem_of_nil | discriminate]. }
  destruct (no_object_gets_two_threads (class_defined 0) queue None 0%Z 0 0 ∅ H0)
    as (_ & H1 & _).
  destruct (no_object_gets_two_threads _ queue (Some always_returns) 0%Z 0 0 ∅ H1)
    as (H2 & _).
  destruct (no_object_gets_two_threads _ 1%nat None 0%Z 0 0 ∅ H2) as (H3 & _).
  exact H3.
Defined.

(** * The rest of the module *)

(** ** [edit] *)

Section EditProperties.

Context {E V : Type}.

Lemma run_callbacks_app (l1 l2 : list (@edit_callback E V)) e v :
  run_callbacks (l1 ++ l2) e v
  = match run_callbacks l1 e v with
    | (v', None) => run_callbacks l2 e v'
    | (v', Some x) => (v', Some x)
    end.
Proof.
  revert v. induction l1 as [|c l1 IH]; intros v; simpl; first done.
  destruct (c e v) as [v' [x|]]; [done | apply IH].
Qed.

(** The callbacks registered for [vid] by a series of appends. *)
Lemma lookup_appends (regs : list (Z * @edit_callback E V)) : ∀ edits vid,
  default [] (foldl (λ m vc, edits_append vc.1 vc.2 m) edits regs !! vid)
  = (default [] (edits !! vid)
     ++ (List.filter (λ vc, bool_decide (vc.1 = vid)) regs).*2)%list.
Proof.
  induction regs as [|[k c] regs IH]; intros edits vid; simpl.
  { by rewrite app_nil_r. }
  rewrite IH. unfold edits_append; simpl.
  destruct (decide (k = vid)) as [-> | Hne].
  - rewrite bool_decide_eq_true_2 by done. simpl.
    rewrite lookup_insert_eq. simpl. by rewrite <- app_assoc.
  - rewrite bool_decide_eq_false_2 by done.
    by rewrite lookup_insert_ne.
Qed.

(** X9.  [edit] uses the callbacks of a view up: afterwards [edits] has no
    entry for the view, also when a callback raised; the entries of the
    other views are as they were; and a second [edit] for the view calls
    nothing and changes nothing. *)
Theorem edit_uses_the_callbacks_up vid (e : E)
    (edits : gmap Z (list (@edit_callback E V))) (v v' : V) :
  (edit vid e edits v).1 !! vid = None
  ∧ (∀ other, other ≠ vid → (edit vid e edits v).1 !! other = edits !! other)
  ∧ edit vid e (edit vid e edits v).1 v' = ((edit vid e edits v).1, (v', None)).
Proof.
  unfold edit; simpl. split; first apply lookup_delete_eq.
  split; first by (intros other Hne; apply lookup_delete_ne).
  rewrite lookup_delete_eq. simpl. f_equal.
  apply delete_id. apply lookup_delete_eq.
Qed.

(** X10.  The callbacks appended to [edits] for a view, among appends for
    any views, are run by [edit] once each, after those that were there
    and in the order of their appends; the first one that raises ends the
    run. *)
Theorem edit_runs_the_appended_callbacks_in_order vid (e : E)
    (edits : gmap Z (list (@edit_callback E V)))
    (regs : list (Z * @edit_callback E V)) (v : V) :
  (edit vid e (foldl (λ m vc, edits_append vc.1 vc.2 m) edits regs) v).2
  = match run_callbacks (default [] (edits !! vid)) e v with
    | (v', None) =>
        run_callbacks (List.filter (λ vc, bool_decide (vc.1 = vid)) regs).*2 e v'
    | (v', Some x) => (v', Some x)
    end.
Proof.
  unfold edit; simpl. by rewrite lookup_appends, run_callbacks_app.
Qed.

(** X11.  Writing the settings through a view.  With nothing else
    registered for the view, the [edit] that follows the append of
    [replace] replaces the whole buffer by the text when the view has no
    unsaved changes, and leaves every view alone when it has; either way
    nothing is raised and [edits] is empty again. *)
Theorem replace_spares_a_dirty_view (dirty : Z → V → bool)
    (replace_all : Z → string → V → V) (target : view) (text : string)
    (e : E) (views : V) :
  edit (ident target) e
    (edits_append (ident target) (replace dirty replace_all target text) ∅) views
  = (∅, (if dirty (ident target) views then views
         else replace_all (ident target) text views, None)).
Proof.
  unfold edit, edits_append, replace; simpl.
  rewrite lookup_empty, lookup_insert_eq; simpl.
  rewrite delete_insert_eq, delete_empty.
  by destruct (dirty (ident target) views).
Qed.

End EditProperties.

(** ** [update_user_settings] *)

Lemma fill_steps (l : list (string * gmap string pyvalue)) : ∀ linters name,
  NoDup l.*1 →
  foldl fill_step linters l !! name
  = match (list_to_map l : gmap string (gmap string pyvalue)) !! name with
    | Some defaults => Some (default ∅ (linters !! name) ∪ defaults)
    | None => linters !! name
    end.
Proof.
  induction l as [|[k d] l IH]; intros linters name Hnd; simpl; first done.
  simpl in Hnd. apply NoDup_cons in Hnd as [Hk Hnd].
  rewrite IH by done. unfold fill_step; simpl.
  destruct (decide (name = k)) as [-> | Hne].
  - rewrite lookup_insert_eq.
    rewrite (not_elem_of_list_to_map_1 _ _ Hk). by rewrite lookup_insert_eq.
  - rewrite (lookup_insert_ne _ k name) by done.
    by rewrite lookup_insert_ne, lookup_delete_ne by done.
Qed.

Lemma fill_linters_lookup languages linters name :
  fill_linters languages linters !! name
  = match languages !! name with
    | Some defaults => Some (default ∅ (linters !! name) ∪ defaults)
    | None => linters !! name
    end.
Proof.
  unfold fill_linters. rewrite fill_steps by apply NoDup_fst_map_to_list.
  by rewrite list_to_map_to_list.
Qed.

(** X12.  Filling in the defaults.  After the loop of
    [update_user_settings], every registered linter has an entry in
    ['linters']: for each key, the value the user had set for that linter if
    there was one, otherwise the default of the linter.  The entries of
    names that are not registered are kept as they were. *)
Theorem user_settings_override_linter_defaults languages linters name key :
  match languages !! name with
  | Some defaults =>
      ∃ filled,
        fill_linters languages linters !! name = Some filled
        ∧ filled !! key
          = match linters !! name with
            | Some user =>
                match user !! key with
                | Some value => Some value
                | None => defaults !! key
                end
            | None => defaults !! key
            end
  | None => fill_linters languages linters !! name = linters !! name
  end.
Proof.
  rewrite fill_linters_lookup.
  destruct (languages !! name) as [defaults|]; last done.
  eexists. split; first done.
  rewrite lookup_union.
  destruct (linters !! name) as [user|]; simpl.
  - destruct (user !! key), (defaults !! key); done.
  - rewrite lookup_empty. by destruct (defaults !! key).
Qed.

(** X13.  Filling in the defaults a second time changes nothing. *)
Theorem filling_in_defaults_is_idempotent languages linters :
  fill_linters languages (fill_linters languages linters)
  = fill_linters languages linters.
Proof.
  apply map_eq. intros name. rewrite !fill_linters_lookup.
  destruct (languages !! name) as [defaults|]; last done.
  simpl. f_equal.
  rewrite <- (assoc_L (∪)). by rewrite (idemp_L (∪)).
Qed.

Lemma find_in_windows_concat windows path :
  find_in_windows windows path = find_in_views (concat windows) path.
Proof.
  induction windows as [|views windows IH]; simpl; first done.
  rewrite IH. clear IH.
  induction views as [|v views IH]; simpl; first done.
  by destruct (bool_decide _).
Qed.

Lemma find_in_views_some views path v :
  find_in_views views path = Some v
  ↔ ∃ before after,
      views = (before ++ v :: after)%list
      ∧ file_name v = Some path
      ∧ Forall (λ v', file_name v' ≠ Some path) before.
Proof.
  induction views as [|v0 views IH]; simpl.
  { split; first done. intros (before & after & Heq & _).
    by destruct before. }
  destruct (decide (file_name v0 = Some path)) as [Hm | Hm].
  - rewrite bool_decide_eq_true_2 by done. split.
    + intros [= <-]. by exists [], views.
    + intros ([|b before] & after & Heq & Hv & Hall); simpl in Heq.
      * by injection Heq as ->.
      * injection Heq as -> _. apply Forall_cons in Hall as [Hb _]. done.
  - rewrite bool_decide_eq_false_2 by done. rewrite IH. split.
    + intros (before & after & -> & Hv & Hall).
      exists (v0 :: before)%list, after. by repeat split; [|constructor].
    + intros ([|b before] & after & Heq & Hv & Hall); simpl in Heq.
      * injection Heq as -> _. done.
      * injection Heq as -> ->. apply Forall_cons in Hall as [_ Hall].
        by exists before, after.
Qed.

Lemma find_in_views_none views path :
  find_in_views views path = None
  ↔ Forall (λ v', file_name v' ≠ Some path) views.
Proof.
  induction views as [|v0 views IH]; simpl; first done.
  destruct (decide (file_name v0 = Some path)) as [Hm | Hm].
  - rewrite bool_decide_eq_true_2 by done. split; first done.
    intros [? _]%Forall_cons. done.
  - rewrite bool_decide_eq_false_2 by done. rewrite IH. split.
    + by constructor.
    + by intros [_ ?]%Forall_cons.
Qed.

(** X14.  Where [update_user_settings] writes.  A view given as argument is
    used as it is, without a look at the windows.  Without one, the
    settings go through the first view, in the order of the windows and of
    their views, whose file is the user settings file, and to the settings
    file itself exactly when no open view shows that file. *)
Theorem update_user_settings_destination view_arg languages linters windows path :
  (∀ v, view_arg = Some v →
        (update_user_settings view_arg languages linters windows path).2 = InView v)
  ∧ (∀ v, view_arg = None →
          ((update_user_settings view_arg languages linters windows path).2 = InView v
           ↔ ∃ before after,
               concat windows = (before ++ v :: after)%list
               ∧ file_name v = Some path
               ∧ Forall (λ v', file_name v' ≠ Some path) before))
  ∧ ((update_user_settings view_arg languages linters windows path).2
     = InSettingsFile
     ↔ view_arg = None
       ∧ Forall (λ v', file_name v' ≠ Some path) (concat windows)).
Proof.
  unfold update_user_settings. split; last split.
  - by intros v ->.
  - intros v ->. rewrite find_in_windows_concat, <- find_in_views_some.
    destruct (find_in_views (concat windows) path); simpl; split; congruence.
  - destruct view_arg as [v|]; simpl.
    + split; [done | by intros [? _]].
    + rewrite find_in_windows_concat, <- find_in_views_none.
      destruct (find_in_views (concat windows) path); simpl; split;
        try done; by intros [_ ?].
Qed.

Lemma update_user_settings_destination_witness :
  (update_user_settings None ∅ None
     [[ {| ident := 1; file_name := None; is_dirty := false |} ];
      [ {| ident := 2; file_name := Some "prefs"%string; is_dirty := true |};
        {| ident := 3; file_name := Some "prefs"%string; is_dirty := false |} ]]
     "prefs").2
  = InView {| ident := 2; file_name := Some "prefs"%string; is_dirty := true |}.
Proof.
  destruct (update_user_settings_destination None ∅ None
     [[ {| ident := 1; file_name := None; is_dirty := false |} ];
      [ {| ident := 2; file_name := Some "prefs"%string; is_dirty := true |};
        {| ident := 3; file_name := Some "prefs"%string; is_dirty := false |} ]]
     "prefs") as (_ & Hfound & _).
  apply Hfound; first reflexivity.
  exists [ {| ident := 1; file_name := None; is_dirty := false |} ],
         [ {| ident := 3; file_name := Some "prefs"%string; is_dirty := false |} ].
  split; first reflexivity. split; first reflexivity.
  constructor; [discriminate | constructor].
Defined.

(** ** [update_gutter_marks] *)

Section GutterMarksProperties.

Variables (join : list string → string) (basename : string → string).
Variables (isdir exists_ : string → bool).
Variables (packages_path plugin_directory : string).

Lemma first_theme_path_none paths :
  Forall (λ path, isdir (join [packages_path; join path]) = false) paths →
  first_theme_path join isdir packages_path paths = None.
Proof.
  induction paths as [|path paths IH]; simpl; first done.
  intros [Hhead Htail]%Forall_cons. rewrite Hhead. by apply IH.
Qed.

Lemma first_theme_path_first before path after :
  Forall (λ path, isdir (join [packages_path; join path]) = false) before →
  isdir (join [packages_path; join path]) = true →
  first_theme_path join isdir packages_path (before ++ path :: after)
  = Some (join path).
Proof.
  induction before as [|b before IH]; simpl; intros Hall Hdir.
  - by rewrite Hdir.
  - apply Forall_cons in Hall as [Hb Hall]. rewrite Hb. by apply IH.
Qed.

(** X15.  No theme at all.  When none of the three directories exists
    (the user theme, the built-in theme, the built-in default), both icons
    become the empty string and an error dialog names the theme; the
    ['colorize'] entry and every other entry of [gutter_marks] keep their
    values, and nothing is printed. *)
Theorem gutter_marks_without_a_theme_directory settings gutter_marks w theme :
  gutter_theme settings = Some theme →
  Forall (λ path, isdir (join [packages_path; join path]) = false)
    (theme_paths plugin_directory theme) →
  update_gutter_marks join basename isdir exists_ packages_path plugin_directory
    settings gutter_marks w
  = Some (<["error"%string := PyStr ""]>
            (<["warning"%string := PyStr ""]> gutter_marks),
          w, [not_available theme])
  ∧ ∀ key, key ≠ "warning"%string → key ≠ "error"%string →
      (<["error"%string := PyStr ""]>
         (<["warning"%string := PyStr ""]> gutter_marks)) !! key
      = gutter_marks !! key.
Proof.
  intros Htheme Hnone. split.
  - unfold update_gutter_marks. rewrite Htheme.
    by rewrite first_theme_path_none.
  - intros key Hw He. by rewrite !lookup_insert_ne.
Qed.

(** X16.  The first theme found is the one used.  When, in the order user
    theme, built-in theme, built-in default, [path] is the first whose
    directory exists, both icons are the [warning.png] and [error.png] of
    that one directory and ['colorize'] tells whether it holds a file
    [colorize]; no dialog is shown; the one line that may be printed is the
    notice that the default is used, and it is never printed when the
    theme asked for is ['Default']. *)
Theorem gutter_marks_come_from_the_first_theme_found
    settings gutter_marks w theme before path after :
  gutter_theme settings = Some theme →
  theme_paths plugin_directory theme = (before ++ path :: after)%list →
  Forall (λ path, isdir (join [packages_path; join path]) = false) before →
  isdir (join [packages_path; join path]) = true →
  join path ≠ ""%string →
  ∃ w',
    update_gutter_marks join basename isdir exists_ packages_path plugin_directory
      settings gutter_marks w
    = Some (<["colorize"%string :=
                PyBool (exists_ (join [packages_path; join path; "colorize"%string]))]>
              (<["error"%string :=
                   PyStr (join ["Packages"%string; join path; "error.png"%string])]>
                 (<["warning"%string :=
                      PyStr (join ["Packages"%string; join path; "warning.png"%string])]>
                    gutter_marks)),
            w', [])
    ∧ (w' = w
       ∨ w' = printf [Text ("cannot find the gutter theme '" +:+ theme
                            +:+ "', using the default")] w)
    ∧ (theme = "Default"%string → w' = w).
Proof.
  intros Htheme Hpaths Hbefore Hdir Hnonempty.
  unfold update_gutter_marks. rewrite Htheme, Hpaths.
  rewrite first_theme_path_first by done. simpl.
  assert (Hne : String.eqb (join path) "" = false) by by apply String.eqb_neq.
  rewrite Hne. simpl.
  destruct (String.eqb theme "Default") eqn:Hdefault; simpl.
  - exists w. split; first done. split; [by left | done].
  - assert (theme ≠ "Default"%string) by by apply String.eqb_neq.
    destruct (String.eqb (basename (join path)) "Default"); simpl.
    + eexists. split; first done. split; [by right | done].
    + exists w. split; first done. split; [by left | done].
Qed.

End GutterMarksProperties.

(** Paths as lists of components joined with a slash, and a file system
    with the one directory given, to try the statements on. *)
Lemma gutter_marks_without_a_theme_directory_witness :
  ∃ marks,
    update_gutter_marks (String.concat "/") (λ s, s) (λ _, false) (λ _, false)
      "Packages" "SublimeLinter" {[ "gutter_theme"%string := PyStr "Knob" ]}
      {[ "colorize"%string := PyBool true ]} (plugin_started 0)
    = Some (marks, plugin_started 0, [not_available "Knob"])
    ∧ marks !! "colorize"%string = Some (PyBool true).
Proof.
  destruct (gutter_marks_without_a_theme_directory (String.concat "/") (λ s, s)
              (λ _, false) (λ _, false) "Packages" "SublimeLinter"
              {[ "gutter_theme"%string := PyStr "Knob" ]}
              {[ "colorize"%string := PyBool true ]} (plugin_started 0) "Knob")
    as (Hres & Hkeep).
  - reflexivity.
  - repeat constructor.
  - eexists. split; first exact Hres.
    rewrite Hkeep by discriminate. reflexivity.
Defined.

Lemma gutter_marks_come_from_the_first_theme_found_witness :
  ∃ marks w',
    update_gutter_marks (String.concat "/") (λ s, s)
      (String.eqb "Packages/SublimeLinter/gutter-themes/Default") (λ _, false)
      "Packages" "SublimeLinter" {[ "gutter_theme"%string := PyStr "Knob" ]}
      ∅ (plugin_started 0)
    = Some (marks, w', [])
    ∧ marks !! "warning"%string
      = Some (PyStr "Packages/SublimeLinter/gutter-themes/Default/warning.png").
Proof.
  destruct (gutter_marks_come_from_the_first_theme_found (String.concat "/")
              (λ s, s)
              (String.eqb "Packages/SublimeLinter/gutter-themes/Default")
              (λ _, false) "Packages" "SublimeLinter"
              {[ "gutter_theme"%string := PyStr "Knob" ]} ∅ (plugin_started 0)
              "Knob"
              [ ["User"; "SublimeLinter-gutter-themes"; "Knob"];
                ["SublimeLinter"; "gutter-themes"; "Knob"] ]%string
              ["SublimeLinter"; "gutter-themes"; "Default"]%string [])
    as (w' & Hres & _).
  - reflexivity.
  - reflexivity.
  - repeat constructor.
  - reflexivity.
  - discriminate.
  - eexists _, w'. split; first exact Hres. reflexivity.
Defined.

(** ** What is printed does not count *)

Section Printing.

Variable self : nat.

Lemma set_stdout_same w : set_stdout (stdout w) w = w.
Proof. by destruct w. Qed.

Lemma sweep_any_stdout items : ∀ w p lines,
  ending_local (sweep self items (set_stdout lines w) p)
  = ending_local (sweep self items w p)
  ∧ ending_exn (sweep self items (set_stdout lines w) p)
    = ending_exn (sweep self items w p)
  ∧ ending_world (sweep self items (set_stdout lines w) p)
    = set_stdout lines (ending_world (sweep self items w p)).
Proof.
  induction items as [|[k t] rest IH]; intros w p lines; simpl; first done.
  unfold time_monotonic; simpl.
  destruct (Qlt_le_dec _ _); last by apply IH.
  destruct (p !! k); last done.
  unfold reenter; simpl.
  change (get_callback self (set_last_runs ?m (set_stdout lines w)))
    with (get_callback self w).
  change (get_callback self (set_last_runs ?m w)) with (get_callback self w).
  destruct (get_callback self w) as [f|]; last done.
  destruct (f k t); last done.
  match goal with |- context [sweep self rest ?w' (delete k p)] =>
    match w' with
    | set_calls ?c (set_last_runs ?m w) => apply (IH w' (delete k p) lines)
    end end.
Qed.

Lemma report_stdout e w : stdout (report e w) = (stdout w ++ diagnostic e)%list.
Proof. unfold report, printf, diagnostic, dashes; simpl. by rewrite <- !app_assoc. Qed.

Lemma report_any_stdout e w lines :
  report e (set_stdout lines w) = set_stdout (lines ++ diagnostic e) (report e w).
Proof.
  unfold report, printf, diagnostic, dashes, set_stdout; simpl.
  by rewrite <- !app_assoc.
Qed.

Lemma turn_any_stdout waited w p lines :
  (loop_iteration self waited (set_stdout lines w, p)).2
  = (loop_iteration self waited (w, p)).2
  ∧ ∃ new,
      stdout (loop_iteration self waited (w, p)).1 = (stdout w ++ new)%list
      ∧ (loop_iteration self waited (set_stdout lines w, p)).1
        = set_stdout (lines ++ new) (loop_iteration self waited (w, p)).1.
Proof.
  destruct (q w) as [|it rest] eqn:Hq.
  - unfold loop_iteration; simpl.
    rewrite !turn_of_sweep by done.
    change (set_clock (clock (set_stdout lines w) + waited) (set_stdout lines w))
      with (set_stdout lines (set_clock (clock w + waited) w)).
    set (w1 := set_clock (clock w + waited) w).
    destruct (sweep_any_stdout (map_to_list p) w1 p lines) as (Hl & He & Hw).
    destruct (sweep_frame self (map_to_list p) w1 p) as (_ & _ & _ & _ & Hout).
    destruct (sweep self (map_to_list p) w1 p) as [w2 p2 | e w2 p2];
      destruct (sweep self (map_to_list p) (set_stdout lines w1) p)
        as [w3 p3 | e3 w3 p3]; simpl in Hl, He, Hw, Hout; try discriminate He;
      lazy beta iota delta [fst snd]; subst.
    + split; first done. exists []. rewrite !app_nil_r. by split.
    + injection He as ->. split; first done.
      exists (diagnostic e). split.
      * by rewrite report_stdout, Hout.
      * apply report_any_stdout.
  - unfold loop_iteration, loop_try, q_get, time_sleep; simpl. rewrite Hq; simpl.
    destruct it as [k t|[]|n|x|s|r]; simpl;
      repeat match goal with
      | |- context [last_runs w !! ?k] => destruct (last_runs w !! k); simpl
      | |- context [Qlt_le_dec ?a ?b] => destruct (Qlt_le_dec a b); simpl
      | |- context [String.eqb ?a ?b] => destruct (String.eqb a b); simpl
      end;
      (split; first done);
      try (exists []; rewrite !app_nil_r; by split);
      try (eexists; split; first reflexivity; reflexivity);
      try (eexists; split; first apply report_stdout;
           exact (report_any_stdout _ (received waited rest w) lines)).
Qed.

(** X17.  Standard output is write-only for the loop: a turn taken with
    other lines on standard output receives, accepts, drops, sweeps and
    calls exactly as it would have, and prints the same new lines after
    those that are there. *)
Theorem printing_never_changes_scheduling waited w p lines :
  (loop_iteration self waited (set_stdout lines w, p)).2
  = (loop_iteration self waited (w, p)).2
  ∧ ∃ new,
      stdout (loop_iteration self waited (w, p)).1 = (stdout w ++ new)%list
      ∧ (loop_iteration self waited (set_stdout lines w, p)).1
        = set_stdout (lines ++ new) (loop_iteration self waited (w, p)).1.
Proof. apply turn_any_stdout. Qed.

(** X18.  [debug] prints what [printf] prints when the ['debug'] entry of
    the settings is truthy and nothing when the entry is missing or falsy;
    whichever, the turn of the loop that follows accepts, drops and
    dispatches as it would have without the call. *)
Theorem debug_prints_only_with_a_truthy_flag settings args waited w p :
  (settings !! "debug"%string = None → debug settings args w = w)
  ∧ (∀ flag, settings !! "debug"%string = Some flag →
       debug settings args w = if truthy flag then printf args w else w)
  ∧ (loop_iteration self waited (debug settings args w, p)).2
    = (loop_iteration self waited (w, p)).2
  ∧ calls (loop_iteration self waited (debug settings args w, p)).1
    = calls (loop_iteration self waited (w, p)).1
  ∧ last_runs (loop_iteration self waited (debug settings args w, p)).1
    = last_runs (loop_iteration self waited (w, p)).1.
Proof.
  split; first by (intros H; unfold debug; rewrite H).
  split; first by (intros flag H; unfold debug; rewrite H).
  assert (Hset : ∃ lines, debug settings args w = set_stdout lines w).
  { unfold debug. destruct (truthy _).
    - by eexists.
    - exists (stdout w). by rewrite set_stdout_same. }
  destruct Hset as (lines & ->).
  destruct (turn_any_stdout waited w p lines) as (Hp & new & _ & Hw).
  by rewrite Hp, Hw.
Qed.

End Printing.

Lemma debug_prints_only_with_a_truthy_flag_witness :
  debug {[ "debug"%string := PyStr "false" ]} [Text "linting"] (plugin_started 0)
  = printf [Text "linting"] (plugin_started 0)
  ∧ debug {[ "debug"%string := PyInt 0 ]} [Text "linting"] (plugin_started 0)
    = plugin_started 0.
Proof.
  destruct (debug_prints_only_with_a_truthy_flag queue
              {[ "debug"%string := PyStr "false" ]} [Text "linting"] 0
              (plugin_started 0) ∅) as (_ & Hstr & _).
  destruct (debug_prints_only_with_a_truthy_flag queue
              {[ "debug"%string := PyInt 0 ]} [Text "linting"] 0
              (plugin_started 0) ∅) as (_ & Hint & _).
  split.
  - rewrite (Hstr (PyStr "false")); reflexivity.
  - rewrite (Hint (PyInt 0)); reflexivity.
Defined.
